(** * Pairs-trading dashboard: ingestion, alignment, rolling analytics, alert

    A shallow embedding of [ingest.py] and [app.py].

    Numbers.  Prices and every statistic that is a rational function of the
    prices (means, variances, the regression slope, the spread) are exact
    rationals [Q]; the two places where the program takes a square root
    (rolling standard deviation, rolling correlation) produce reals [R].
    A float cell that may hold NaN or an infinity is a [fval].  Rounding
    error of binary floating point is outside the model.

    Time.  Instants are integers counting milliseconds since the Unix
    epoch; a naive (zone-less) wall-clock reading is an integer counting
    milliseconds since 1970-01-01T00:00:00 on that clock. *)

From Stdlib Require Import ZArith QArith Qabs Qreals Reals Psatz List Bool.
From Stdlib Require Import Ascii String Sorted Permutation.
Import ListNotations.

(* ================================================================== *)
(** * ingest.py *)
(* ================================================================== *)

Module Ingest.

Local Open Scope Z_scope.

(** ** The host clock

    [datetime.fromtimestamp(x)] with no [tz] argument answers in the local
    time of the machine it runs on.  A host is therefore part of the input:
    [utcoffset_ms h t] is the offset of local time from UTC, in
    milliseconds, in force on host [h] at instant [t]. *)

Record host : Type := { utcoffset_ms : Z -> Z }.

Definition utc_host : host := {| utcoffset_ms := fun _ => 0 |}.
Definition fixed_offset_host (minutes : Z) : host :=
  {| utcoffset_ms := fun _ => minutes * 60000 |}.

(** ** Naive datetimes and [isoformat] *)

Record datetime : Type := {
  year : Z; month : Z; day : Z;
  hour : Z; minute : Z; second : Z; microsecond : Z
}.

Definition ms_per_day : Z := 86400000.

(** Gregorian date of a day number (days since 1970-01-01), by the usual
    era / day-of-era decomposition. *)
Definition civil_from_days (days : Z) : Z * Z * Z :=
  let z := days + 719468 in
  let era := z / 146097 in
  let doe := z - era * 146097 in
  let yoe := (doe - doe / 1460 + doe / 36524 - doe / 146096) / 365 in
  let doy := doe - (365 * yoe + yoe / 4 - yoe / 100) in
  let mp := (5 * doy + 2) / 153 in
  let d := doy - (153 * mp + 2) / 5 + 1 in
  let m := if mp <? 10 then mp + 3 else mp - 9 in
  let y := yoe + era * 400 + (if m <=? 2 then 1 else 0) in
  (y, m, d).

(** The wall-clock reading [w] (milliseconds) as calendar fields. *)
Definition datetime_of_wall_ms (w : Z) : datetime :=
  let '(y, m, d) := civil_from_days (w / ms_per_day) in
  let r := w mod ms_per_day in
  {| year := y; month := m; day := d;
     hour := r / 3600000;
     minute := (r / 60000) mod 60;
     second := (r / 1000) mod 60;
     microsecond := (r mod 1000) * 1000 |}.

Definition MINYEAR : Z := 1.
Definition MAXYEAR : Z := 9999.

(** [datetime.fromtimestamp(T / 1000)]: the local wall-clock reading of the
    instant; a year outside [MINYEAR..MAXYEAR] raises, which is [None]. *)
Definition fromtimestamp (h : host) (T : Z) : option datetime :=
  let dt := datetime_of_wall_ms (T + utcoffset_ms h T) in
  if (year dt <? MINYEAR) || (MAXYEAR <? year dt) then None else Some dt.

Definition digit (n : Z) : ascii := ascii_of_nat (48 + Z.to_nat n).

Fixpoint zero_padded (width : nat) (n : Z) (acc : string) : string :=
  match width with
  | O => acc
  | S k => zero_padded k (n / 10) (String (digit (n mod 10)) acc)
  end.

Definition fmt (width : nat) (n : Z) : string := zero_padded width n EmptyString.

(** [datetime.isoformat()]: no zone suffix for a naive datetime, and the
    fraction is printed (six digits) only when it is not zero. *)
Definition isoformat (dt : datetime) : string :=
  (fmt 4 (year dt) ++ "-" ++ fmt 2 (month dt) ++ "-" ++ fmt 2 (day dt)
   ++ "T" ++ fmt 2 (hour dt) ++ ":" ++ fmt 2 (minute dt) ++ ":"
   ++ fmt 2 (second dt)
   ++ (if Z.eqb (microsecond dt) 0 then "" else "." ++ fmt 6 (microsecond dt)))%string.

(** The ISO-8601 text of the UTC reading of instant [T]: what a
    zone-independent conversion would store. *)
Definition utc_isoformat (T : Z) : string :=
  isoformat (datetime_of_wall_ms T).

(** ** Trade messages

    The decoded JSON object.  A field is [None] when the key is missing or
    its value does not convert ([data['T'] / 1000], [float(data['p'])],
    [float(data['q'])] raise); [msg_e] is the event tag. *)

Record trade_msg : Type := {
  msg_e : option string;
  msg_T : option Z;
  msg_p : option Q;
  msg_q : option Q
}.

(** A row of the [ticks] table, less the auto-incremented id. *)
Record tick : Type := {
  tick_ts : string;
  tick_symbol : string;
  tick_price : Q;
  tick_size : Q
}.

(** [normalize_trade_data]: any exception inside the [try] gives [None]. *)
Definition normalize_trade_data (h : host) (symbol : string) (data : trade_msg)
  : option tick :=
  match msg_T data with
  | None => None
  | Some T =>
    match fromtimestamp h T with
    | None => None
    | Some dt =>
      let trade_time := isoformat dt in
      match msg_p data, msg_q data with
      | Some p, Some q =>
          Some {| tick_ts := trade_time; tick_symbol := symbol;
                  tick_price := p; tick_size := q |}
      | _, _ => None
      end
    end
  end.

(** The body of the receive loop for one decoded message: only messages
    tagged ["trade"] are normalized, and a tick is appended to the table
    only when normalization succeeded. *)
Definition on_message (h : host) (symbol : string) (data : trade_msg)
    (table : list tick) : list tick :=
  match msg_e data with
  | Some e =>
      if String.eqb e "trade" then
        match normalize_trade_data h symbol data with
        | Some t => table ++ [t]
        | None => table
        end
      else table
  | None => table
  end.

(** ** subscribe_to_trades

    One connector task, seen through what the network hands it.  The task
    is either waiting for [websockets.connect] or inside the receive loop.
    - [ConnectOk] / [ConnectFail]: the connection attempt returns or
      raises; a failure is followed by [asyncio.sleep(5)] and a retry.
    - [Received data stored]: [ws.recv()] returned a message; [data] is
      what [json.loads] made of it ([None] when decoding or reading the
      event tag raises), and [stored] tells whether the INSERT and commit
      went through when one was attempted.  Every exception here is caught
      inside the receive loop, which goes on.
    - [ConnectionClosed]: [ws.recv()] raised [ConnectionClosed]; the task
      leaves the receive loop and reconnects at once.
    An event that cannot happen in the task's phase leaves the state as it
    is. *)

Inductive phase : Type := Connecting | Streaming.

Inductive event : Type :=
| ConnectOk
| ConnectFail
| Received (data : option trade_msg) (stored : bool)
| ConnectionClosed.

Record connector : Type := {
  conn_phase : phase;
  sleeps : nat           (* how many 5-second sleeps so far *)
}.

Definition subscribe_step (h : host) (symbol : string) (ev : event)
    (st : connector * list tick) : connector * list tick :=
  let (c, table) := st in
  match conn_phase c, ev with
  | Connecting, ConnectOk =>
      ({| conn_phase := Streaming; sleeps := sleeps c |}, table)
  | Connecting, ConnectFail =>
      ({| conn_phase := Connecting; sleeps := S (sleeps c) |}, table)
  | Streaming, Received (Some data) true =>
      (c, on_message h symbol data table)
  | Streaming, Received _ _ => (c, table)
  | Streaming, ConnectionClosed =>
      ({| conn_phase := Connecting; sleeps := sleeps c |}, table)
  | _, _ => (c, table)
  end.

(** [subscribe_to_trades] over a finite run of events. *)
Definition subscribe_to_trades (h : host) (symbol : string)
    (evs : list event) (st : connector * list tick) : connector * list tick :=
  fold_left (fun s ev => subscribe_step h symbol ev s) evs st.

(** ** main: one task per tracked symbol over one shared connection

    The two tasks run on one event loop, and the handling of a received
    message has no suspension point between [recv] and [commit]: a run is
    a sequence of whole steps, each belonging to the task named by its
    symbol.  A step addressed to a symbol that has no task does nothing. *)

Definition symbols_to_track : list string := ["btcusdt"; "ethusdt"]%string.

Definition tracks (symbol : string) : bool :=
  existsb (String.eqb symbol) symbols_to_track.

Definition start : connector := {| conn_phase := Connecting; sleeps := 0 |}.

Definition main_step (h : host) (sev : string * event)
    (st : (string -> connector) * list tick) : (string -> connector) * list tick :=
  let (conns, table) := st in
  let (symbol, ev) := sev in
  if tracks symbol then
    let (c, table') := subscribe_step h symbol ev (conns symbol, table) in
    (fun s => if String.eqb s symbol then c else conns s, table')
  else (conns, table).

Definition main_from (h : host) (schedule : list (string * event))
    (st : (string -> connector) * list tick) : (string -> connector) * list tick :=
  fold_left (fun s sev => main_step h sev s) schedule st.

Definition main (h : host) (schedule : list (string * event))
    (table : list tick) : (string -> connector) * list tick :=
  main_from h schedule (fun _ => start, table).


End Ingest.

(* ================================================================== *)
(** * app.py *)
(* ================================================================== *)

Module App.

(** ** Float cells

    A cell of a float column: a finite value, an infinity, or NaN. *)

Inductive fval : Type :=
| NaN
| PInf
| NInf
| Fin (r : R).

Definition fsub (a b : fval) : fval :=
  match a, b with
  | NaN, _ | _, NaN => NaN
  | PInf, PInf | NInf, NInf => NaN
  | PInf, _ => PInf
  | NInf, _ => NInf
  | Fin _, PInf => NInf
  | Fin _, NInf => PInf
  | Fin x, Fin y => Fin (x - y)%R
  end.

(** The sign of a finite value, as an infinity. *)
Definition inf_of_sign (x : R) : fval :=
  if Rlt_dec 0 x then PInf else NInf.

Definition fdiv (a b : fval) : fval :=
  match a, b with
  | NaN, _ | _, NaN => NaN
  | PInf, Fin y => if Rlt_dec y 0 then NInf else PInf
  | NInf, Fin y => if Rlt_dec y 0 then PInf else NInf
  | (PInf | NInf), (PInf | NInf) => NaN
  | Fin _, (PInf | NInf) => Fin 0
  | Fin x, Fin y =>
      if Req_dec_T y 0 then
        if Req_dec_T x 0 then NaN else inf_of_sign x
      else Fin (x / y)%R
  end.

Definition fabs (v : fval) : fval :=
  match v with
  | NaN => NaN | PInf | NInf => PInf | Fin r => Fin (Rabs r)
  end.

(** [a > t] for a float cell [a] and a finite [t]; every comparison with
    NaN is false. *)
Definition fgt (a : fval) (t : R) : bool :=
  match a with
  | NaN => false
  | PInf => true
  | NInf => false
  | Fin r => if Rlt_dec t r then true else false
  end.

(** ** Frames *)

(** A row of the frame [load_data] returns: columns [ts], [symbol],
    [price].  The empty [DataFrame()] is the empty list. *)
Record row : Type := { ts : Z; symbol : string; price : Q }.
Definition frame : Type := list row.

(** A [Series] of prices indexed by timestamp, in row order. *)
Definition series : Type := list (Z * Q).
Definition index (s : series) : list Z := map fst s.

(** A row of the two-column frame while it may still hold NaN ([None]). *)
Record pair_row : Type := {
  pr_ts : Z; pr_btc : option Q; pr_eth : option Q
}.

(** A row of the two-column frame once [dropna] has run. *)
Record bar : Type := { bar_ts : Z; btc_price : Q; eth_price : Q }.

(** ** The result of a call or of a run *)

Inductive result (A : Type) : Type :=
| Returned (a : A)
| Raised.
Arguments Returned {A} a.
Arguments Raised {A}.

(** ** Library routines taken as given

    Three library results are inputs of the model, not computed by it:
    - [to_datetime]: the naive wall-clock reading (milliseconds) that
      [pd.to_datetime(_, format='ISO8601')] parses from a text, [None]
      when it raises;
    - [flat_regressor_slope]: the [btc_price] coefficient the fit reports
      when the btc column holds one value throughout, where least squares
      does not tell the slope from the intercept;
    - [adfuller]: the p-value of the Augmented Dickey-Fuller test on a
      series, [None] when the routine raises. *)
Record libs : Type := {
  to_datetime : string -> option Z;
  flat_regressor_slope : list Q -> list Q -> Q;
  adfuller : list Q -> option fval
}.

(** ** load_data *)

(** What is on disk at [db_path]. *)
Inductive db_state : Type :=
| NoFile                                (* no file at the path *)
| NoTicksTable                          (* a file, but the query fails *)
| Ticks (rows : list Ingest.tick).      (* the table and its rows *)

Fixpoint parse_rows (L : libs) (rows : list Ingest.tick) : result frame :=
  match rows with
  | [] => Returned []
  | t :: rest =>
      match to_datetime L (Ingest.tick_ts t), parse_rows L rest with
      | Some w, Returned f =>
          Returned ({| ts := w; symbol := Ingest.tick_symbol t;
                       price := Ingest.tick_price t |} :: f)
      | _, _ => Raised
      end
  end.

Definition load_data (L : libs) (db : db_state) : result frame :=
  match db with
  | NoFile => Returned []
  | NoTicksTable => Returned []
  | Ticks [] => Returned []
  | Ticks rows => parse_rows L rows
  end.

(** ** get_pair_data *)

Local Open Scope Z_scope.

Definition BTC : string := "btcusdt".
Definition ETH : string := "ethusdt".

(** [df[df['symbol'] == sym].set_index('ts')['price']] *)
Definition select_symbol (sym : string) (df : frame) : series :=
  map (fun r => (ts r, price r))
      (filter (fun r => String.eqb (symbol r) sym) df).

(** [Index.is_unique] *)
Fixpoint is_unique (l : list Z) : bool :=
  match l with
  | [] => true
  | x :: rest => negb (existsb (Z.eqb x) rest) && is_unique rest
  end.

Definition Qsum (l : list Q) : Q := fold_right Qplus (0 # 1)%Q l.

Definition Qlen (l : list Q) : Q := inject_Z (Z.of_nat (List.length l)).

(** The arithmetic mean. *)
Definition Qmean (l : list Q) : Q := (Qsum l / Qlen l)%Q.

(** Insertion of a key into an increasing list without repetition. *)
Fixpoint insert_key (k : Z) (l : list Z) : list Z :=
  match l with
  | [] => [k]
  | x :: rest =>
      if k <? x then k :: l
      else if k =? x then l
      else x :: insert_key k rest
  end.

(** The distinct keys of [l] in increasing order. *)
Definition sorted_keys (l : list Z) : list Z := fold_right insert_key [] l.

(** The prices a series holds at timestamp [t], in row order. *)
Definition prices_at (t : Z) (s : series) : list Q :=
  map snd (filter (fun e => fst e =? t) s).

(** [s.groupby(s.index).mean()]: one point per distinct timestamp, in
    increasing timestamp order, holding the mean of that group. *)
Definition groupby_mean (s : series) : series :=
  map (fun t => (t, Qmean (prices_at t s))) (sorted_keys (index s)).

(** The [if not s.index.is_unique: ... else: ...] step. *)
Definition dedup (s : series) : series :=
  if is_unique (index s) then s else groupby_mean s.

(** The value of a series with a unique index at [t]; NaN when absent. *)
Definition lookup (t : Z) (s : series) : option Q :=
  option_map snd (find (fun e => fst e =? t) s).

(** [pd.concat([btc, eth], axis=1, keys=[...])]: an outer join on the
    index.  The joint index of two datetime indexes is their sorted union.
    (pandas hands back the left index untouched when both indexes are equal
    element for element; that agrees with the sorted union whenever the
    rows of a symbol arrive in time order.) *)
Definition concat_columns (btc eth : series) : list pair_row :=
  map (fun t => {| pr_ts := t; pr_btc := lookup t btc; pr_eth := lookup t eth |})
      (sorted_keys (index btc ++ index eth)).

Definition carry (cell last : option Q) : option Q :=
  match cell with Some v => Some v | None => last end.

(** [DataFrame.ffill()], column by column, top to bottom. *)
Fixpoint ffill_from (last_btc last_eth : option Q) (rows : list pair_row)
  : list pair_row :=
  match rows with
  | [] => []
  | r :: rest =>
      let b := carry (pr_btc r) last_btc in
      let e := carry (pr_eth r) last_eth in
      {| pr_ts := pr_ts r; pr_btc := b; pr_eth := e |} :: ffill_from b e rest
  end.

Definition ffill (rows : list pair_row) : list pair_row :=
  ffill_from None None rows.

(** [DataFrame.dropna()]: rows with a NaN in either column go. *)
Fixpoint dropna (rows : list pair_row) : list bar :=
  match rows with
  | [] => []
  | r :: rest =>
      match pr_btc r, pr_eth r with
      | Some b, Some e =>
          {| bar_ts := pr_ts r; btc_price := b; eth_price := e |} :: dropna rest
      | _, _ => dropna rest
      end
  end.

Definition is_empty {A : Type} (l : list A) : bool :=
  match l with [] => true | _ => false end.

Definition get_pair_data (df : frame) : list bar :=
  if is_empty df then []
  else
    let btc_df := select_symbol BTC df in
    let eth_df := select_symbol ETH df in
    let btc := dedup btc_df in
    let eth := dedup eth_df in
    if is_empty btc || is_empty eth then []
    else dropna (ffill (concat_columns btc eth)).

(** ** Resampling: [pair_df.resample(timeframe).last().dropna()]

    The model covers a rule of fixed width [iv] milliseconds.  Bins are
    closed on the left, labelled by their left edge and anchored at
    midnight of the first day of the data; there is one bin for every
    multiple of [iv] from the bin of the earliest row to the bin of the
    latest.  How pandas reads the text of a rule is not modelled: the
    width is the model's input. *)

Definition ts_min (t0 : Z) (rows : list bar) : Z :=
  fold_right (fun r m => Z.min (bar_ts r) m) t0 rows.
Definition ts_max (t0 : Z) (rows : list bar) : Z :=
  fold_right (fun r m => Z.max (bar_ts r) m) t0 rows.

Definition start_day (t : Z) : Z := (t / Ingest.ms_per_day) * Ingest.ms_per_day.

(** The left edge of the bin holding [t]. *)
Definition bin_of (iv origin t : Z) : Z := origin + ((t - origin) / iv) * iv.

Definition bin_edges (iv : Z) (rows : list bar) : list Z :=
  match rows with
  | [] => []
  | r0 :: _ =>
      let origin := start_day (ts_min (bar_ts r0) rows) in
      let lo := bin_of iv origin (ts_min (bar_ts r0) rows) in
      let hi := bin_of iv origin (ts_max (bar_ts r0) rows) in
      map (fun k => lo + Z.of_nat k * iv)
          (seq 0 (S (Z.to_nat ((hi - lo) / iv))))
  end.

Definition last_opt {A : Type} (l : list A) : option A :=
  fold_left (fun _ x => Some x) l None.

(** [.last()]: per bin and per column, the last value present; a bin with
    no row holds NaN in both columns. *)
Definition resample_last (iv : Z) (rows : list bar) : list pair_row :=
  match rows with
  | [] => []
  | r0 :: _ =>
      let origin := start_day (ts_min (bar_ts r0) rows) in
      map (fun b =>
             let inside := filter (fun r => bin_of iv origin (bar_ts r) =? b) rows in
             {| pr_ts := b;
                pr_btc := option_map btc_price (last_opt inside);
                pr_eth := option_map eth_price (last_opt inside) |})
          (bin_edges iv rows)
  end.

Definition resample (iv : Z) (rows : list bar) : list bar :=
  dropna (resample_last iv rows).

(** ** calculate_analytics *)

Definition sq (x : Q) : Q := (x * x)%Q.

(** Sum of squared deviations from the mean. *)
Definition sum_sq_dev (l : list Q) : Q :=
  Qsum (map (fun x => sq (x - Qmean l)) l).

(** Sum of products of deviations from the two means. *)
Definition sum_cross_dev (xs ys : list Q) : Q :=
  Qsum (map (fun p => ((fst p - Qmean xs) * (snd p - Qmean ys))%Q)
            (combine xs ys)).

(** [sm.OLS(y, sm.add_constant(x)).fit().params[x]]: the least-squares
    slope of [ys] on [xs] with an intercept. *)
Definition ols_slope (L : libs) (xs ys : list Q) : Q :=
  if Qeq_bool (sum_sq_dev xs) (0 # 1) then flat_regressor_slope L xs ys
  else (sum_cross_dev xs ys / sum_sq_dev xs)%Q.

(** Variance and covariance with [ddof = 1]. *)
Definition sample_var (l : list Q) : Q :=
  (sum_sq_dev l / (Qlen l - (1 # 1)))%Q.
Definition sample_cov (xs ys : list Q) : Q :=
  (sum_cross_dev xs ys / (Qlen xs - (1 # 1)))%Q.

Definition sample_std (l : list Q) : R := sqrt (Q2R (sample_var l)).

(** The [w] observations that end at position [i]. *)
Definition window {A : Type} (w i : nat) (xs : list A) : list A :=
  firstn w (skipn (S i - w) xs).

(** [xs.rolling(window=w).stat()] with the default [min_periods = w]:
    position [i] holds [stat] of its window once the window is full and
    holds more than [ddof] observations, NaN otherwise. *)
Definition rolling {A : Type} (w ddof : nat) (stat : list A -> fval)
    (xs : list A) : list fval :=
  map (fun i =>
         if ((w <=? S i) && (ddof <? w))%nat then stat (window w i xs) else NaN)
      (seq 0 (List.length xs)).

Definition rolling_mean (w : nat) (xs : list Q) : list fval :=
  rolling w 0 (fun l => Fin (Q2R (Qmean l))) xs.

Definition rolling_std (w : nat) (xs : list Q) : list fval :=
  rolling w 1 (fun l => Fin (sample_std l)) xs.

(** Pearson correlation of the two columns of a window, as the exact
    quotient.  The value pandas computes for a full window is this one up
    to binary rounding only, so nothing below is stated about the value of
    a full window's cell. *)
Definition pearson (l : list (Q * Q)) : fval :=
  let xs := map fst l in
  let ys := map snd l in
  fdiv (Fin (Q2R (sample_cov xs ys)))
       (Fin (sqrt (Q2R (sample_var xs * sample_var ys)))).

Definition rolling_corr_of (w : nat) (xs ys : list Q) : list fval :=
  rolling w 1 pearson (combine xs ys).

Fixpoint map3 {A B C D : Type} (f : A -> B -> C -> D)
    (la : list A) (lb : list B) (lc : list C) : list D :=
  match la, lb, lc with
  | a :: la', b :: lb', c :: lc' => f a b c :: map3 f la' lb' lc'
  | _, _, _ => []
  end.

(** [(spread - spread_mean) / spread_std], element by element. *)
Definition z_score_of (w : nat) (spread : list Q) : list fval :=
  map3 (fun s m sd => fdiv (fsub (Fin (Q2R s)) m) sd)
       spread (rolling_mean w spread) (rolling_std w spread).

Definition spread_of (hedge_ratio : Q) (df : list bar) : list Q :=
  map (fun r => (eth_price r - hedge_ratio * btc_price r)%Q) df.

(** The returned dictionary, less the printable regression summary.
    The body is evaluated afresh on every call: the memo that
    [st.cache_resource] keeps (keyed on [window] alone, the frame
    parameter's name starting with an underscore) is outside the model. *)
Record analytics : Type := {
  hedge_ratio : Q;
  spread : list Q;
  z_score : list fval;
  rolling_corr : list fval;
  adf_p_value : fval
}.

Definition calculate_analytics (L : libs) (df : list bar) (w : nat)
  : result analytics :=
  let y := map eth_price df in
  let x := map btc_price df in
  let hr := ols_slope L x y in
  let sp := spread_of hr df in
  let z := z_score_of w sp in
  let rc := rolling_corr_of w x y in
  match adfuller L sp with
  | None => Raised
  | Some p =>
      Returned {| hedge_ratio := hr; spread := sp; z_score := z;
                  rolling_corr := rc; adf_p_value := p |}
  end.

(** ** The alert: [abs(current_z) > alert_z_score] *)

Definition alert (current_z : fval) (alert_z_score : R) : bool :=
  fgt (fabs current_z) alert_z_score.

(** ** One run of the script

    What the page shows after one top-to-bottom run with nothing memoised:
    a notice followed by [st.stop()], an uncaught exception, or the
    dashboard.  The Streamlit memo decorators and everything drawn after
    the alert are outside the model. *)

Inductive page : Type :=
| NoDataFound
| WaitingForBothSymbols
| WaitingForMoreData (need : nat)
| Crashed
| Dashboard (a : analytics) (current_z : fval) (breach : bool).

(** The run from the resampled frame on: the length guard, the analytics,
    the alert on the last z-score. *)
Definition run_analytics (L : libs) (resampled_df : list bar)
    (rolling_window : nat) (alert_z_score : R) : page :=
  if is_empty resampled_df
     || (List.length resampled_df <? rolling_window)%nat
  then WaitingForMoreData rolling_window
  else
    match calculate_analytics L resampled_df rolling_window with
    | Raised => Crashed
    | Returned a =>
        let current_z := last (z_score a) NaN in
        Dashboard a current_z (alert current_z alert_z_score)
    end.

Definition main (L : libs) (db : db_state) (iv : Z) (rolling_window : nat)
    (alert_z_score : R) : page :=
  match load_data L db with
  | Raised => Crashed
  | Returned raw_df =>
    if is_empty raw_df then NoDataFound
    else
      let pair_df := get_pair_data raw_df in
      if is_empty pair_df then WaitingForBothSymbols
      else run_analytics L (resample iv pair_df) rolling_window alert_z_score
  end.

End App.

(* ================================================================== *)
(** * The database file, as both programs see it *)
(* ================================================================== *)

Module Store.

(** What is at [DB_NAME], fine enough to tell what [CREATE TABLE IF NOT
    EXISTS] does: no file, a file SQLite cannot read, or a database with
    or without the [ticks] table. *)
Inductive disk : Type :=
| Absent
| Foreign
| Database (ticks : option (list Ingest.tick)).

(** The same file as [load_data] tells it apart. *)
Definition view (d : disk) : App.db_state :=
  match d with
  | Absent => App.NoFile
  | Foreign => App.NoTicksTable
  | Database None => App.NoTicksTable
  | Database (Some rows) => App.Ticks rows
  end.

(** [create_database_table]: connecting creates a missing file, the
    statement creates a missing table and leaves an existing one alone; a
    file that is not a database makes the statement raise. *)
Definition create_database_table (d : disk) : App.result disk :=
  match d with
  | Absent => App.Returned (Database (Some []))
  | Foreign => App.Raised
  | Database None => App.Returned (Database (Some []))
  | Database (Some rows) => App.Returned (Database (Some rows))
  end.

End Store.

(* ================================================================== *)
(** * Vocabulary of the statements *)
(* ================================================================== *)

Module Spec.

Import App.

(** A row belongs to one of the two tracked symbols. *)
Definition tracked (r : row) : bool :=
  String.eqb (symbol r) BTC || String.eqb (symbol r) ETH.

(** The values of [xs] at the [w] positions [i-w+1 .. i], read one index at
    a time. *)
Definition trailing (w i : nat) (xs : list Q) : list Q :=
  map (fun j => nth j xs (0 # 1)%Q) (seq (S i - w) w).

(** The z-score the specification writes for position [i]. *)
Definition z_formula (w i : nat) (xs : list Q) : R :=
  ((Q2R (nth i xs (0 # 1)%Q) - Q2R (Qmean (trailing w i xs)))
   / sample_std (trailing w i xs))%R.

(** The column of a bar that belongs to a tracked symbol. *)
Definition column (sym : string) (b : bar) : Q :=
  if String.eqb sym BTC then btc_price b else eth_price b.

(** The other symbol of the pair. *)
Definition other_symbol (sym : string) : string :=
  if String.eqb sym BTC then ETH else BTC.

(** [t] is the earliest timestamp at which [sym] is observed in [df]. *)
Definition first_observation (sym : string) (df : frame) (t : Z) : Prop :=
  (exists r, In r df /\ symbol r = sym /\ ts r = t) /\
  (forall r, In r df -> symbol r = sym -> (t <= ts r)%Z).

(** [b] lies a positive whole number of bins of width [iv] after [a]. *)
Definition bins_apart (iv a b : Z) : Prop :=
  exists k, (0 < k)%Z /\ (b - a = k * iv)%Z.

(** Consecutive entries of a list are related by [P]. *)
Fixpoint consecutive {A : Type} (P : A -> A -> Prop) (l : list A) : Prop :=
  match l with
  | a :: (b :: _) as rest => P a b /\ consecutive P rest
  | _ => True
  end.

(** [cell] is what forward fill leaves at time [t] for a series [s]: the
    value [s] holds at its latest timestamp at or before [t], and NaN when
    [s] has no timestamp that early. *)
Definition latest_at (s : series) (t : Z) (cell : option Q) : Prop :=
  match cell with
  | Some q =>
      exists tb, (tb <= t)%Z /\ In (tb, q) s /\
                 (forall t', In t' (index s) -> (t' <= t)%Z -> (t' <= tb)%Z)
  | None => forall t', In t' (index s) -> (t < t')%Z
  end.

(** What forward fill holds for [s] before the rows at [todo]: the value
    at the latest timestamp of [s] that is not among [todo], if any. *)
Definition carried (s : series) (todo : list Z) (last : option Q) : Prop :=
  match last with
  | Some q =>
      exists tb, In (tb, q) s /\
                 (forall t, In t todo -> (tb < t)%Z) /\
                 (forall t, In t (index s) -> In t todo \/ (t <= tb)%Z)
  | None => forall t, In t (index s) -> In t todo
  end.

(** The anchor of the resampling bins: midnight of the day of the earliest
    row. *)
Definition resample_origin (rows : list bar) : Z :=
  match rows with
  | [] => 0%Z
  | r0 :: _ => start_day (ts_min (bar_ts r0) rows)
  end.


(** The day number of a Gregorian date, and the wall-clock reading of a
    datetime: the maps that the normaliser's conversions are checked
    against. *)
Definition days_from_civil (y m d : Z) : Z :=
  let y' := if (m <=? 2)%Z then (y - 1)%Z else y in
  let era := (y' / 400)%Z in
  let yoe := (y' - era * 400)%Z in
  let mp := if (m <=? 2)%Z then (m + 9)%Z else (m - 3)%Z in
  let doy := ((153 * mp + 2) / 5 + d - 1)%Z in
  let doe := (yoe * 365 + yoe / 4 - yoe / 100 + doy)%Z in
  (era * 146097 + doe - 719468)%Z.

Definition wall_ms_of_datetime (dt : Ingest.datetime) : Z :=
  (days_from_civil (Ingest.year dt) (Ingest.month dt) (Ingest.day dt)
   * Ingest.ms_per_day
   + Ingest.hour dt * 3600000 + Ingest.minute dt * 60000
   + Ingest.second dt * 1000 + Ingest.microsecond dt / 1000)%Z.

(** Fields that each fit the width [isoformat] prints them in. *)
Definition printable (dt : Ingest.datetime) : Prop :=
  (0 <= Ingest.year dt <= 9999 /\ 0 <= Ingest.month dt <= 99 /\
   0 <= Ingest.day dt <= 99 /\ 0 <= Ingest.hour dt <= 99 /\
   0 <= Ingest.minute dt <= 99 /\ 0 <= Ingest.second dt <= 99 /\
   0 <= Ingest.microsecond dt <= 999999)%Z.

End Spec.

(* ================================================================== *)
(** * Sample inputs *)
(* ================================================================== *)

Module Samples.

Import App.

Local Open Scope Z_scope.

(** Library results used when a run is evaluated on a sample: no text
    parses, a fit on a flat btc column reports slope zero, and the stationarity
    test returns (its p-value plays no part in what follows). *)
Definition sample_libs : libs :=
  {| to_datetime := fun _ => None;
     flat_regressor_slope := fun _ _ => (0 # 1)%Q;
     adfuller := fun _ => Some (Fin (1 / 2)%R) |}.

Definition mk_bar (k : Z) (b e : Z) : bar :=
  {| bar_ts := k * 1000; btc_price := inject_Z b; eth_price := inject_Z e |}.

(** Thirty one-second bars: twenty with moving prices, then ten during
    which neither price changes. *)
Definition quiet_tail : list bar :=
  [ mk_bar 0 100 10; mk_bar 1 101 11; mk_bar 2 103 10; mk_bar 3 102 12;
    mk_bar 4 104 11; mk_bar 5 106 13; mk_bar 6 105 12; mk_bar 7 107 11;
    mk_bar 8 104 12; mk_bar 9 103 10; mk_bar 10 101 11; mk_bar 11 102 10;
    mk_bar 12 100 9; mk_bar 13 99 10; mk_bar 14 101 11; mk_bar 15 103 12;
    mk_bar 16 104 11; mk_bar 17 106 12; mk_bar 18 105 13; mk_bar 19 104 12;
    mk_bar 20 105 11; mk_bar 21 105 11; mk_bar 22 105 11; mk_bar 23 105 11;
    mk_bar 24 105 11; mk_bar 25 105 11; mk_bar 26 105 11; mk_bar 27 105 11;
    mk_bar 28 105 11; mk_bar 29 105 11 ].

Definition mk_row (t : Z) (s : string) (p : Z) : row :=
  {| ts := t; symbol := s; price := inject_Z p |}.

(** Both symbols trade at 0 s and at 2 s, and not in between. *)
Definition gap_frame : frame :=
  [ mk_row 0 BTC 100; mk_row 0 ETH 10; mk_row 2000 BTC 101; mk_row 2000 ETH 11 ].

(** Two BTC ticks in the same millisecond, then later ticks. *)
Definition dup_frame : frame :=
  [ mk_row 0 ETH 10; mk_row 5 BTC 100; mk_row 5 BTC 102; mk_row 7 ETH 11;
    mk_row 2500 BTC 103 ].

(** A trade message as the feed delivers it, at 2023-11-14T22:13:20.123Z. *)
Definition sample_msg : Ingest.trade_msg :=
  {| Ingest.msg_e := Some "trade"%string;
     Ingest.msg_T := Some 1700000000123;
     Ingest.msg_p := Some (35000 # 1)%Q;
     Ingest.msg_q := Some (1 # 2)%Q |}.

(** Library results in which the timestamp parser reads the one text the
    sample message is stored as on a host on UTC. *)
Definition reading_libs : libs :=
  {| to_datetime := fun s =>
       if String.eqb s "2023-11-14T22:13:20.123000"
       then Some 1700000000123 else None;
     flat_regressor_slope := fun _ _ => (0 # 1)%Q;
     adfuller := fun _ => Some (Fin (1 / 2)%R) |}.


(** Three bars on the exact line eth = 1 + 2 btc. *)
Definition line_bars : list bar :=
  [ mk_bar 0 1 3; mk_bar 1 2 5; mk_bar 2 3 7 ].

(** A table holding the sample message as a UTC host stored it. *)
Definition btc_only_table : list Ingest.tick :=
  [ {| Ingest.tick_ts := "2023-11-14T22:13:20.123000";
       Ingest.tick_symbol := BTC;
       Ingest.tick_price := (35000 # 1)%Q;
       Ingest.tick_size := (1 # 2)%Q |} ].

End Samples.

(* ================================================================== *)
(** * Properties *)
(* ================================================================== *)

Import App.

(** ** The model on small inputs *)

Section Examples.

Local Open Scope Z_scope.

Example isoformat_epoch :
  Ingest.utc_isoformat 0 = "1970-01-01T00:00:00"%string.
Proof. reflexivity. Qed.

Example isoformat_before_epoch :
  Ingest.utc_isoformat (-1) = "1969-12-31T23:59:59.999000"%string.
Proof. reflexivity. Qed.

Example isoformat_leap_day :
  Ingest.utc_isoformat 1709251199000 = "2024-02-29T23:59:59"%string.
Proof. vm_compute. reflexivity. Qed.

Example normalize_on_utc_host :
  Ingest.normalize_trade_data Ingest.utc_host BTC Samples.sample_msg
  = Some {| Ingest.tick_ts := "2023-11-14T22:13:20.123000";
            Ingest.tick_symbol := BTC;
            Ingest.tick_price := (35000 # 1)%Q;
            Ingest.tick_size := (1 # 2)%Q |}.
Proof. vm_compute. reflexivity. Qed.

Example normalize_without_price :
  Ingest.normalize_trade_data Ingest.utc_host BTC
    {| Ingest.msg_e := Some "trade"%string; Ingest.msg_T := Some 0;
       Ingest.msg_p := None; Ingest.msg_q := Some (1 # 1)%Q |}
  = None.
Proof. reflexivity. Qed.

Example other_events_are_skipped :
  Ingest.on_message Ingest.utc_host BTC
    {| Ingest.msg_e := Some "aggTrade"%string; Ingest.msg_T := Some 0;
       Ingest.msg_p := Some (1 # 1)%Q; Ingest.msg_q := Some (1 # 1)%Q |} []
  = [].
Proof. reflexivity. Qed.

(** The two BTC ticks at 5 ms merge into their mean 101 (printed
    unreduced), and the ETH tick at 0 ms, which precedes every BTC tick,
    opens no row. *)
Example pair_data_of_dup_frame :
  get_pair_data Samples.dup_frame
  = [ {| bar_ts := 5; btc_price := (202 # 2)%Q; eth_price := (10 # 1)%Q |};
      {| bar_ts := 7; btc_price := (202 # 2)%Q; eth_price := (11 # 1)%Q |};
      {| bar_ts := 2500; btc_price := (103 # 1)%Q; eth_price := (11 # 1)%Q |} ].
Proof. vm_compute. reflexivity. Qed.

Example resample_last_of_gap_frame :
  resample_last 1000 (get_pair_data Samples.gap_frame)
  = [ {| pr_ts := 0; pr_btc := Some (100 # 1)%Q; pr_eth := Some (10 # 1)%Q |};
      {| pr_ts := 1000; pr_btc := None; pr_eth := None |};
      {| pr_ts := 2000; pr_btc := Some (101 # 1)%Q; pr_eth := Some (11 # 1)%Q |} ].
Proof. vm_compute. reflexivity. Qed.

Example window_slides :
  window 3 3 [1 # 1; 2 # 1; 3 # 1; 4 # 1]%Q = [2 # 1; 3 # 1; 4 # 1]%Q.
Proof. reflexivity. Qed.

Example slope_of_an_exact_line :
  (ols_slope Samples.sample_libs
     [1 # 1; 2 # 1; 3 # 1; 5 # 1] [3 # 1; 5 # 1; 7 # 1; 11 # 1] == 2 # 1)%Q.
Proof. vm_compute. reflexivity. Qed.

End Examples.

(** ** The alert *)

Section AlertFacts.

Local Open Scope R_scope.

Lemma alert_fin (z t : R) : alert (Fin z) t = true <-> Rabs z > t.
Proof.
  unfold alert, fabs, fgt.
  destruct (Rlt_dec t (Rabs z)) as [H | H]; split; intro K;
    try reflexivity; try discriminate; try assumption.
  exfalso; apply H; exact K.
Qed.

Lemma alert_nan (t : R) : alert NaN t = false.
Proof. reflexivity. Qed.

(** C9: the alert fires exactly when [|z| > t]; a z-score that sits on the
    threshold, [|z| = t], is no breach; the three sample evaluations of the
    alert law. *)
Theorem alert_law :
  (forall z t : R, alert (Fin z) t = true <-> Rabs z > t) /\
  (forall z : R, alert (Fin z) (Rabs z) = false) /\
  alert (Fin 2.5) 2.0 = true /\
  alert (Fin 1.9) 2.0 = false /\
  alert (Fin (-2.1)) 2.0 = true.
Proof.
  split; [exact alert_fin |].
  split.
  { intro z. destruct (alert (Fin z) (Rabs z)) eqn:A; [| reflexivity].
    apply alert_fin in A. lra. }
  split; [| split].
  - apply alert_fin. rewrite Rabs_right; lra.
  - destruct (alert (Fin 1.9) 2.0) eqn:A; [| reflexivity].
    apply alert_fin in A. rewrite Rabs_right in A; lra.
  - apply alert_fin. rewrite Rabs_left; lra.
Qed.

End AlertFacts.

(** ** Reading the store *)

Section LoadFacts.

Variable L : libs.

(** C7: a missing file, a missing table and an empty table each make
    [load_data] return the empty frame without raising, and the run then
    shows the waiting notice. *)
Theorem load_data_not_yet_available :
  load_data L NoFile = Returned [] /\
  load_data L NoTicksTable = Returned [] /\
  load_data L (Ticks []) = Returned [] /\
  (forall iv w thr,
      main L NoFile iv w thr = NoDataFound /\
      main L NoTicksTable iv w thr = NoDataFound /\
      main L (Ticks []) iv w thr = NoDataFound).
Proof.
  repeat split; reflexivity.
Qed.

End LoadFacts.

(** ** The length guard *)

Section GuardFacts.

Variable L : libs.

Lemma run_analytics_short (s : list bar) (w : nat) (thr : R) :
  (List.length s < w)%nat -> run_analytics L s w thr = WaitingForMoreData w.
Proof.
  intro H. unfold run_analytics.
  apply Nat.ltb_lt in H. rewrite H, orb_true_r. reflexivity.
Qed.

End GuardFacts.

(** ** Symbols *)

Section SymbolFacts.

Lemma filter_filter_absorb {A : Type} (f g : A -> bool) (l : list A) :
  (forall x, f x = true -> g x = true) ->
  filter f (filter g l) = filter f l.
Proof.
  intro H. induction l as [| x l IH]; simpl; [reflexivity |].
  destruct (g x) eqn:G; simpl.
  - rewrite IH. reflexivity.
  - destruct (f x) eqn:F; [| exact IH].
    apply H in F. congruence.
Qed.

Lemma filter_filter_none {A : Type} (f g : A -> bool) (l : list A) :
  (forall x, f x = true -> g x = false) ->
  filter f (filter g l) = [].
Proof.
  intro H. induction l as [| x l IH]; simpl; [reflexivity |].
  destruct (g x) eqn:G; simpl; [| exact IH].
  destruct (f x) eqn:F; [| exact IH].
  apply H in F. congruence.
Qed.

Lemma select_symbol_tracked (sym : string) (df : frame) :
  sym = BTC \/ sym = ETH ->
  select_symbol sym (filter Spec.tracked df) = select_symbol sym df.
Proof.
  intro H. unfold select_symbol. f_equal.
  apply filter_filter_absorb. intros r E. unfold Spec.tracked.
  destruct H as [-> | ->]; rewrite E; [reflexivity | apply orb_true_r].
Qed.

Lemma select_symbol_untracked (sym : string) (df : frame) :
  sym = BTC \/ sym = ETH ->
  select_symbol sym (filter (fun r => negb (Spec.tracked r)) df) = [].
Proof.
  intro H. unfold select_symbol.
  rewrite filter_filter_none; [reflexivity |].
  intros r E. unfold Spec.tracked.
  destruct H as [-> | ->]; rewrite E; [reflexivity | rewrite orb_true_r; reflexivity].
Qed.

(** The pair frame is a function of the two selected series alone. *)
Lemma get_pair_data_selected (df : frame) :
  get_pair_data df =
  let btc := dedup (select_symbol BTC df) in
  let eth := dedup (select_symbol ETH df) in
  if is_empty btc || is_empty eth then []
  else dropna (ffill (concat_columns btc eth)).
Proof.
  unfold get_pair_data. destruct df; reflexivity.
Qed.

(** C10: only rows whose symbol is exactly ['btcusdt'] or ['ethusdt'] count:
    dropping every other row leaves the pair frame unchanged, and a frame
    made of other symbols only gives the empty pair frame. *)
Theorem only_tracked_symbols (df : frame) :
  get_pair_data df = get_pair_data (filter Spec.tracked df) /\
  get_pair_data (filter (fun r => negb (Spec.tracked r)) df) = [].
Proof.
  split.
  - rewrite (get_pair_data_selected df).
    rewrite (get_pair_data_selected (filter Spec.tracked df)).
    rewrite !select_symbol_tracked by (left + right; reflexivity).
    reflexivity.
  - rewrite get_pair_data_selected.
    rewrite !select_symbol_untracked by (left + right; reflexivity).
    reflexivity.
Qed.

End SymbolFacts.

(** ** Sorted keys *)

Section KeyFacts.

Local Open Scope Z_scope.

Lemma insert_key_In (k x : Z) (l : list Z) :
  In x (insert_key k l) <-> x = k \/ In x l.
Proof.
  induction l as [| y l IH]; simpl.
  - intuition.
  - destruct (k <? y) eqn:Lt; simpl; [intuition |].
    destruct (k =? y) eqn:Eq; simpl.
    + apply Z.eqb_eq in Eq. subst y. intuition.
    + rewrite IH. intuition.
Qed.

Lemma insert_key_sorted (k : Z) (l : list Z) :
  StronglySorted Z.lt l -> StronglySorted Z.lt (insert_key k l).
Proof.
  induction 1 as [| y l Hs IH Hall]; simpl.
  - constructor; constructor.
  - destruct (k <? y) eqn:Lt.
    + apply Z.ltb_lt in Lt. constructor.
      * constructor; assumption.
      * constructor; [exact Lt |].
        eapply Forall_impl; [| exact Hall]. intros a Ha. lia.
    + destruct (k =? y) eqn:Eq.
      * constructor; assumption.
      * apply Z.ltb_ge in Lt. apply Z.eqb_neq in Eq.
        constructor; [exact IH |].
        apply Forall_forall. intros a Ha.
        apply insert_key_In in Ha. destruct Ha as [-> | Ha]; [lia |].
        rewrite Forall_forall in Hall. apply Hall. exact Ha.
Qed.

Lemma sorted_keys_In (x : Z) (l : list Z) : In x (sorted_keys l) <-> In x l.
Proof.
  unfold sorted_keys. induction l as [| y l IH]; simpl; [tauto |].
  rewrite insert_key_In, IH. intuition.
Qed.

Lemma sorted_keys_sorted (l : list Z) : StronglySorted Z.lt (sorted_keys l).
Proof.
  unfold sorted_keys. induction l as [| y l IH]; simpl.
  - constructor.
  - apply insert_key_sorted. exact IH.
Qed.

Lemma filter_eqb_none (t : Z) (l : list Z) :
  (forall z, In z l -> z <> t) -> filter (fun k => k =? t) l = [].
Proof.
  induction l as [| z l IH]; simpl; intro H; [reflexivity |].
  destruct (z =? t) eqn:E.
  - apply Z.eqb_eq in E. exfalso. apply (H z); [left; reflexivity | exact E].
  - apply IH. intros a Ha. apply H. right. exact Ha.
Qed.

(** In a strictly increasing list a key occurs once. *)
Lemma filter_eqb_sorted (t : Z) (l : list Z) :
  StronglySorted Z.lt l -> In t l -> filter (fun k => k =? t) l = [t].
Proof.
  induction 1 as [| y l Hs IH Hall]; simpl; [tauto |].
  rewrite Forall_forall in Hall.
  intros [-> | Hin].
  - rewrite Z.eqb_refl. f_equal. apply filter_eqb_none.
    intros z Hz. apply Hall in Hz. lia.
  - assert (y < t) by (apply Hall; exact Hin).
    destruct (y =? t) eqn:E; [apply Z.eqb_eq in E; lia |].
    apply IH. exact Hin.
Qed.

Lemma is_unique_count (l : list Z) (t : Z) :
  is_unique l = true -> (List.length (filter (fun k => (k =? t)%Z) l) <= 1)%nat.
Proof.
  induction l as [| y l IH]; simpl; [lia |].
  intro H. apply andb_true_iff in H. destruct H as [Hn Hu].
  specialize (IH Hu).
  destruct (y =? t) eqn:E; [| exact IH].
  apply Z.eqb_eq in E. subst y. simpl.
  apply negb_true_iff in Hn.
  rewrite filter_eqb_none; [simpl; lia |].
  intros z Hz E. subst z.
  assert (existsb (Z.eqb t) l = true) as K; [| congruence].
  apply existsb_exists. exists t. split; [exact Hz | apply Z.eqb_refl].
Qed.

End KeyFacts.

(** ** Alignment *)

Section AlignFacts.

Local Open Scope Z_scope.

Lemma filter_map_swap {A B : Type} (f : B -> bool) (g : A -> B) (l : list A) :
  filter f (map g l) = map g (filter (fun a => f (g a)) l).
Proof.
  induction l as [| a l IH]; simpl; [reflexivity |].
  destruct (f (g a)); simpl; rewrite IH; reflexivity.
Qed.

Lemma prices_at_length (t : Z) (s : series) :
  List.length (prices_at t s)
  = List.length (filter (fun k => k =? t) (index s)).
Proof.
  unfold prices_at, index. rewrite filter_map_swap, !length_map. reflexivity.
Qed.

Lemma prices_at_In_index (t : Z) (s : series) :
  (1 <= List.length (prices_at t s))%nat -> In t (index s).
Proof.
  rewrite prices_at_length. intro H.
  destruct (filter (fun k => k =? t) (index s)) as [| k l] eqn:E;
    [simpl in H; lia |].
  assert (In k (filter (fun k => k =? t) (index s))) as K
      by (rewrite E; left; reflexivity).
  apply filter_In in K. destruct K as [K1 K2].
  apply Z.eqb_eq in K2. subst k. exact K1.
Qed.

Lemma index_groupby_mean (s : series) :
  index (groupby_mean s) = sorted_keys (index s).
Proof.
  unfold groupby_mean, index at 1. rewrite map_map. simpl. apply map_id.
Qed.

Lemma prices_at_groupby_mean (t : Z) (s : series) :
  In t (index s) -> prices_at t (groupby_mean s) = [Qmean (prices_at t s)].
Proof.
  intro H. unfold prices_at at 1, groupby_mean.
  rewrite filter_map_swap. simpl.
  rewrite filter_eqb_sorted.
  - reflexivity.
  - apply sorted_keys_sorted.
  - apply sorted_keys_In. exact H.
Qed.

Lemma dedup_duplicated (t : Z) (s : series) :
  (2 <= List.length (prices_at t s))%nat -> dedup s = groupby_mean s.
Proof.
  intro H. unfold dedup.
  destruct (is_unique (index s)) eqn:U; [| reflexivity].
  apply (is_unique_count _ t) in U. rewrite <- prices_at_length in U. lia.
Qed.

Lemma lookup_groupby_mean (t : Z) (s : series) :
  In t (index s) -> lookup t (groupby_mean s) = Some (Qmean (prices_at t s)).
Proof.
  intro H. apply sorted_keys_In in H.
  unfold lookup, groupby_mean.
  induction (sorted_keys (index s)) as [| k l IH]; simpl; [destruct H |].
  destruct (k =? t) eqn:E.
  - apply Z.eqb_eq in E. subst k. reflexivity.
  - destruct H as [-> | H]; [rewrite Z.eqb_refl in E; discriminate |].
    apply IH. exact H.
Qed.

Lemma lookup_In (t : Z) (s : series) (q : Q) :
  lookup t s = Some q -> In (t, q) s.
Proof.
  unfold lookup. intro H.
  destruct (find (fun e => fst e =? t) s) as [[t' q'] |] eqn:F;
    [| discriminate].
  simpl in H. injection H as ->.
  apply find_some in F. destruct F as [F1 F2].
  simpl in F2. apply Z.eqb_eq in F2. subst t'. exact F1.
Qed.

Lemma concat_columns_In (btc eth : series) (r : pair_row) :
  In r (concat_columns btc eth) ->
  pr_btc r = lookup (pr_ts r) btc /\ pr_eth r = lookup (pr_ts r) eth.
Proof.
  unfold concat_columns. intro H. apply in_map_iff in H.
  destruct H as [t [<- _]]. simpl. split; reflexivity.
Qed.

Lemma concat_columns_ts (btc eth : series) :
  map pr_ts (concat_columns btc eth) = sorted_keys (index btc ++ index eth).
Proof.
  unfold concat_columns. rewrite map_map. simpl. apply map_id.
Qed.

Lemma ffill_from_ts (lb le : option Q) (rows : list pair_row) :
  map pr_ts (ffill_from lb le rows) = map pr_ts rows.
Proof.
  revert lb le. induction rows as [| r rows IH]; intros lb le; simpl;
    [reflexivity |].
  rewrite IH. reflexivity.
Qed.

(** Forward fill never overwrites a value that is present. *)
Lemma ffill_from_In (lb le : option Q) (rows : list pair_row) (r : pair_row) :
  In r (ffill_from lb le rows) ->
  exists r0, In r0 rows /\ pr_ts r0 = pr_ts r /\
             (forall v, pr_btc r0 = Some v -> pr_btc r = Some v) /\
             (forall v, pr_eth r0 = Some v -> pr_eth r = Some v).
Proof.
  revert lb le. induction rows as [| r1 rows IH]; intros lb le; simpl;
    [tauto |].
  intros [<- | H].
  - exists r1. simpl. repeat split; [left; reflexivity | |];
      intros v E; rewrite E; reflexivity.
  - apply IH in H. destruct H as [r0 [H0 H1]].
    exists r0. split; [right; exact H0 | exact H1].
Qed.

Lemma dropna_In (rows : list pair_row) (b : bar) :
  In b (dropna rows) ->
  exists r, In r rows /\ pr_ts r = bar_ts b /\
            pr_btc r = Some (btc_price b) /\ pr_eth r = Some (eth_price b).
Proof.
  induction rows as [| r rows IH]; simpl; [tauto |].
  destruct (pr_btc r) as [x |] eqn:B; [destruct (pr_eth r) as [y |] eqn:E |].
  - intros [<- | H].
    + exists r. simpl. auto.
    + apply IH in H. destruct H as [r0 [H0 H1]]. exists r0. auto.
  - intro H. apply IH in H. destruct H as [r0 [H0 H1]]. exists r0. auto.
  - intro H. apply IH in H. destruct H as [r0 [H0 H1]]. exists r0. auto.
Qed.

(** A symbol's cell at one of its own timestamps is its deduplicated
    price there. *)
Lemma pair_cell_at_own_timestamp (btc eth : series) (b : bar) :
  In b (dropna (ffill (concat_columns btc eth))) ->
  (forall v, lookup (bar_ts b) btc = Some v -> btc_price b = v) /\
  (forall v, lookup (bar_ts b) eth = Some v -> eth_price b = v).
Proof.
  intro H. apply dropna_In in H. destruct H as [r [Hr [Hts [Hb He]]]].
  apply ffill_from_In in Hr. destruct Hr as [r0 [Hr0 [Hts0 [Kb Ke]]]].
  apply concat_columns_In in Hr0. destruct Hr0 as [Cb Ce].
  rewrite Hts0, Hts in Cb, Ce.
  split; intros v E.
  - rewrite <- Cb in E. apply Kb in E. congruence.
  - rewrite <- Ce in E. apply Ke in E. congruence.
Qed.

End AlignFacts.

(** ** Forward fill and the leading gap *)

Section LeadingGapFacts.

Local Open Scope Z_scope.

(** Every value forward fill puts in a cell was observed, for that symbol,
    at that row's timestamp or at an earlier one. *)
Lemma ffill_from_observed (btc eth : series) (rows : list pair_row) :
  forall lb le : option Q,
  StronglySorted Z.lt (map pr_ts rows) ->
  (forall r, In r rows ->
     pr_btc r = lookup (pr_ts r) btc /\ pr_eth r = lookup (pr_ts r) eth) ->
  (forall r q, In r rows -> lb = Some q ->
     exists t', t' <= pr_ts r /\ In (t', q) btc) ->
  (forall r q, In r rows -> le = Some q ->
     exists t', t' <= pr_ts r /\ In (t', q) eth) ->
  forall r, In r (ffill_from lb le rows) ->
    (forall q, pr_btc r = Some q -> exists t', t' <= pr_ts r /\ In (t', q) btc) /\
    (forall q, pr_eth r = Some q -> exists t', t' <= pr_ts r /\ In (t', q) eth).
Proof.
  induction rows as [| r1 rows IH]; intros lb le Hs Hc Hb He r Hr;
    simpl in Hr; [destruct Hr |].
  simpl in Hs. inversion Hs as [| ? ? Hs' Hall]; subst.
  rewrite Forall_forall in Hall.
  destruct (Hc r1 (or_introl eq_refl)) as [Cb Ce].
  destruct Hr as [<- | Hr].
  - simpl. split; intros q E.
    + destruct (pr_btc r1) as [v |] eqn:B; simpl in E.
      * injection E as ->. exists (pr_ts r1). split; [lia |].
        apply lookup_In. symmetry. exact Cb.
      * apply (Hb r1 q); [left; reflexivity | exact E].
    + destruct (pr_eth r1) as [v |] eqn:B; simpl in E.
      * injection E as ->. exists (pr_ts r1). split; [lia |].
        apply lookup_In. symmetry. exact Ce.
      * apply (He r1 q); [left; reflexivity | exact E].
  - apply (IH (carry (pr_btc r1) lb) (carry (pr_eth r1) le)); try assumption.
    + intros r' Hr'. apply Hc. right. exact Hr'.
    + intros r' q Hr' E.
      destruct (pr_btc r1) as [v |] eqn:B; simpl in E.
      * injection E as ->. exists (pr_ts r1). split.
        -- assert (pr_ts r1 < pr_ts r')
             by (apply Hall; apply in_map; exact Hr'). lia.
        -- apply lookup_In. symmetry. exact Cb.
      * apply (Hb r' q); [right; exact Hr' | exact E].
    + intros r' q Hr' E.
      destruct (pr_eth r1) as [v |] eqn:B; simpl in E.
      * injection E as ->. exists (pr_ts r1). split.
        -- assert (pr_ts r1 < pr_ts r')
             by (apply Hall; apply in_map; exact Hr'). lia.
        -- apply lookup_In. symmetry. exact Ce.
      * apply (He r' q); [right; exact Hr' | exact E].
Qed.

Lemma dedup_index_incl (s : series) (t : Z) (q : Q) :
  In (t, q) (dedup s) -> In t (index s).
Proof.
  unfold dedup. destruct (is_unique (index s)); intro H.
  - apply (in_map fst) in H. exact H.
  - apply (in_map fst) in H. fold (index (groupby_mean s)) in H.
    rewrite index_groupby_mean in H. simpl in H.
    apply (proj1 (sorted_keys_In _ _)) in H. exact H.
Qed.

Lemma select_symbol_index (sym : string) (df : frame) (t : Z) :
  In t (index (select_symbol sym df)) ->
  exists r, In r df /\ symbol r = sym /\ ts r = t.
Proof.
  unfold index, select_symbol. rewrite map_map. simpl.
  intro H. apply in_map_iff in H. destruct H as [r [E H]].
  apply filter_In in H. destruct H as [H1 H2].
  apply String.eqb_eq in H2. exists r. auto.
Qed.

(** Each price of a pair row is the symbol's deduplicated price at that
    row's timestamp or at an earlier one. *)
Lemma pair_data_observed (df : frame) (b : bar) :
  In b (get_pair_data df) ->
  (exists t', t' <= bar_ts b /\
              In (t', btc_price b) (dedup (select_symbol BTC df))) /\
  (exists t', t' <= bar_ts b /\
              In (t', eth_price b) (dedup (select_symbol ETH df))).
Proof.
  rewrite get_pair_data_selected. simpl.
  set (btc := dedup (select_symbol BTC df)).
  set (eth := dedup (select_symbol ETH df)).
  destruct (is_empty btc || is_empty eth); [intros [] |].
  intro H. apply dropna_In in H. destruct H as [r [Hr [Hts [Eb Ee]]]].
  unfold ffill in Hr.
  apply (ffill_from_observed btc eth) in Hr.
  - destruct Hr as [Kb Ke]. rewrite Hts in Kb, Ke. split; auto.
  - rewrite concat_columns_ts. apply sorted_keys_sorted.
  - apply concat_columns_In.
  - intros; discriminate.
  - intros; discriminate.
Qed.

(** C6: no row of the pair frame is earlier than the first observation
    of either tracked symbol, and each row's two prices are prices that
    were observed (after deduplication) at or before the row's timestamp. *)
Theorem leading_gap_law (df : frame) (sym : string) (tA : Z) :
  sym = BTC \/ sym = ETH ->
  Spec.first_observation sym df tA ->
  forall b, In b (get_pair_data df) ->
    tA <= bar_ts b /\
    (exists t', t' <= bar_ts b /\
                In (t', btc_price b) (dedup (select_symbol BTC df))) /\
    (exists t', t' <= bar_ts b /\
                In (t', eth_price b) (dedup (select_symbol ETH df))).
Proof.
  intros Hsym [_ Hmin] b Hb.
  destruct (pair_data_observed df b Hb) as [[tb [Lb Ib]] [te [Le Ie]]].
  split; [| split; [exists tb | exists te]; auto].
  destruct Hsym as [-> | ->].
  - apply dedup_index_incl, select_symbol_index in Ib.
    destruct Ib as [r [R1 [R2 R3]]]. specialize (Hmin r R1 R2). lia.
  - apply dedup_index_incl, select_symbol_index in Ie.
    destruct Ie as [r [R1 [R2 R3]]]. specialize (Hmin r R1 R2). lia.
Qed.

End LeadingGapFacts.

(** ** Resampling *)

Section ResampleFacts.

Local Open Scope Z_scope.

Variable iv : Z.
Hypothesis iv_pos : 0 < iv.

Lemma bins_apart_lt (a b : Z) : Spec.bins_apart iv a b -> a < b.
Proof. intros [k [Hk E]]. nia. Qed.

Lemma grid_sorted (lo : Z) (n a : nat) :
  StronglySorted (Spec.bins_apart iv)
    (map (fun k => lo + Z.of_nat k * iv) (seq a n)).
Proof.
  revert a. induction n as [| n IH]; intro a; simpl; constructor.
  - apply IH.
  - apply Forall_forall. intros y Hy. apply in_map_iff in Hy.
    destruct Hy as [j [<- Hj]]. apply in_seq in Hj.
    exists (Z.of_nat j - Z.of_nat a). split; [lia | ring].
Qed.

Lemma grid_even (lo : Z) (n a : nat) :
  Spec.consecutive (fun x y => y - x = iv)
    (map (fun k => lo + Z.of_nat k * iv) (seq a n)).
Proof.
  revert a. induction n as [| n IH]; intro a; [exact I |].
  specialize (IH (S a)). destruct n as [| n]; [exact I |].
  cbn [seq map Spec.consecutive] in *.
  split; [| exact IH]. rewrite Nat2Z.inj_succ. ring.
Qed.

Lemma resample_last_ts (rows : list bar) :
  map pr_ts (resample_last iv rows) = bin_edges iv rows.
Proof.
  unfold resample_last. destruct rows as [| r0 rows]; [reflexivity |].
  rewrite map_map. cbn [pr_ts]. apply map_id.
Qed.

Lemma bin_edges_sorted (rows : list bar) :
  StronglySorted (Spec.bins_apart iv) (bin_edges iv rows).
Proof.
  unfold bin_edges. destruct rows as [| r0 rows]; [constructor |].
  apply grid_sorted.
Qed.

Lemma bin_edges_even (rows : list bar) :
  Spec.consecutive (fun x y => y - x = iv) (bin_edges iv rows).
Proof.
  unfold bin_edges. destruct rows as [| r0 rows]; [exact I |].
  apply grid_even.
Qed.

End ResampleFacts.

Section DropnaFacts.

Local Open Scope Z_scope.

Lemma dropna_ts_incl (rows : list pair_row) (t : Z) :
  In t (map bar_ts (dropna rows)) -> In t (map pr_ts rows).
Proof.
  intro H. apply in_map_iff in H. destruct H as [b [<- Hb]].
  apply dropna_In in Hb. destruct Hb as [r [Hr [<- _]]].
  apply in_map. exact Hr.
Qed.

(** Dropping rows keeps any order the timestamps had. *)
Lemma dropna_sorted (P : Z -> Z -> Prop) (rows : list pair_row) :
  StronglySorted P (map pr_ts rows) ->
  StronglySorted P (map bar_ts (dropna rows)).
Proof.
  induction rows as [| r rows IH]; simpl; intro H; [constructor |].
  inversion H as [| ? ? Hs Hall]; subst. specialize (IH Hs).
  destruct (pr_btc r); [destruct (pr_eth r) |]; try exact IH.
  simpl. constructor; [exact IH |].
  rewrite Forall_forall in *. intros t Ht. apply Hall.
  apply dropna_ts_incl. exact Ht.
Qed.

Lemma dropna_length (rows : list pair_row) :
  (List.length (dropna rows) <= List.length rows)%nat.
Proof.
  induction rows as [| r rows IH]; simpl; [lia |].
  destruct (pr_btc r); [destruct (pr_eth r) |]; simpl; lia.
Qed.

(** When no row is dropped the timestamps are untouched. *)
Lemma dropna_full (rows : list pair_row) :
  List.length (dropna rows) = List.length rows ->
  map bar_ts (dropna rows) = map pr_ts rows.
Proof.
  induction rows as [| r rows IH]; simpl; [reflexivity |].
  pose proof (dropna_length rows) as Hl.
  destruct (pr_btc r); [destruct (pr_eth r) |]; simpl; intro H; try lia.
  f_equal. apply IH. lia.
Qed.

Lemma sorted_consecutive {A : Type} (P : A -> A -> Prop) (l : list A) :
  StronglySorted P l -> Spec.consecutive P l.
Proof.
  induction 1 as [| a l Hs IH Hall]; simpl; [exact I |].
  destruct l as [| b l]; [exact I |].
  split; [| exact IH]. inversion Hall; assumption.
Qed.

Lemma sorted_weaken {A : Type} (P Q : A -> A -> Prop) (l : list A) :
  (forall a b, P a b -> Q a b) -> StronglySorted P l -> StronglySorted Q l.
Proof.
  intros HPQ. induction 1 as [| a l Hs IH Hall]; constructor; [exact IH |].
  eapply Forall_impl; [| exact Hall]. intros b. apply HPQ.
Qed.

(** The pair frame is in strictly increasing timestamp order. *)
Lemma pair_data_sorted (df : frame) :
  StronglySorted Z.lt (map bar_ts (get_pair_data df)).
Proof.
  rewrite get_pair_data_selected. simpl.
  destruct (is_empty _ || is_empty _); [constructor |].
  apply dropna_sorted. unfold ffill. rewrite ffill_from_ts, concat_columns_ts.
  apply sorted_keys_sorted.
Qed.

(** C8: for a bin width [iv > 0] the resampled timestamps are strictly
    increasing and consecutive ones lie a positive whole number of bins
    apart; they are exactly one bin apart when no bin was dropped. *)
Theorem resample_spacing (iv : Z) (rows : list bar) :
  0 < iv ->
  StronglySorted Z.lt (map bar_ts (resample iv rows)) /\
  Spec.consecutive (Spec.bins_apart iv) (map bar_ts (resample iv rows)) /\
  (List.length (resample iv rows) = List.length (bin_edges iv rows) ->
   Spec.consecutive (fun a b => b - a = iv) (map bar_ts (resample iv rows))).
Proof.
  intro Hiv.
  assert (StronglySorted (Spec.bins_apart iv)
            (map bar_ts (resample iv rows))) as Hgrid.
  { unfold resample. apply dropna_sorted. rewrite resample_last_ts.
    apply bin_edges_sorted. }
  split; [| split].
  - eapply sorted_weaken; [| exact Hgrid].
    intros a b. apply bins_apart_lt. exact Hiv.
  - apply sorted_consecutive. exact Hgrid.
  - intro Hlen. unfold resample in *.
    rewrite dropna_full.
    + rewrite resample_last_ts. apply bin_edges_even.
    + rewrite Hlen, <- resample_last_ts, length_map. reflexivity.
Qed.

End DropnaFacts.

(** ** Forward fill *)

Section ForwardFillFacts.

Local Open Scope Z_scope.

Lemma lookup_None (t : Z) (s : series) :
  lookup t s = None -> ~ In t (index s).
Proof.
  unfold lookup. intros H Hin.
  destruct (find (fun e => fst e =? t) s) as [e |] eqn:F; [discriminate |].
  apply in_map_iff in Hin. destruct Hin as [[t' q] [E Hin]].
  simpl in E. subst t'.
  apply (find_none _ _ F) in Hin. simpl in Hin.
  rewrite Z.eqb_refl in Hin. discriminate.
Qed.

(** One row of forward fill, for one column. *)
Lemma carried_step (s : series) (t : Z) (todo : list Z) (last : option Q) :
  StronglySorted Z.lt (t :: todo) ->
  Spec.carried s (t :: todo) last ->
  Spec.latest_at s t (carry (lookup t s) last) /\
  Spec.carried s todo (carry (lookup t s) last).
Proof.
  intros Hs Hc. inversion Hs as [| ? ? _ Hall]; subst.
  rewrite Forall_forall in Hall.
  destruct (lookup t s) as [v |] eqn:Lk; simpl.
  - apply lookup_In in Lk. split.
    + exists t. split; [lia |]. split; [exact Lk |]. intros; assumption.
    + exists t. split; [exact Lk |]. split; [exact Hall |].
      intros t' Ht'. destruct last as [q |]; simpl in Hc.
      * destruct Hc as [tb [_ [Hlt Hcov]]].
        destruct (Hcov t' Ht') as [[<- | Hin] | Hle].
        -- right; lia.
        -- left; exact Hin.
        -- right. specialize (Hlt t (or_introl eq_refl)). lia.
      * destruct (Hc t' Ht') as [<- | Hin]; [right; lia | left; exact Hin].
  - apply lookup_None in Lk.
    destruct last as [q |]; simpl in Hc |- *.
    + destruct Hc as [tb [Hin [Hlt Hcov]]].
      assert (tb < t) as Htb by (apply Hlt; left; reflexivity).
      split.
      * exists tb. split; [lia |]. split; [exact Hin |].
        intros t' Ht' Hle.
        destruct (Hcov t' Ht') as [[<- | Hin'] | Hle']; [contradiction | | exact Hle'].
        apply Hall in Hin'. lia.
      * exists tb. split; [exact Hin |]. split.
        -- intros t' Ht'. apply Hlt. right. exact Ht'.
        -- intros t' Ht'.
           destruct (Hcov t' Ht') as [[<- | Hin'] | Hle'];
             [contradiction | left; exact Hin' | right; exact Hle'].
    + split.
      * intros t' Ht'. destruct (Hc t' Ht') as [<- | Hin']; [contradiction |].
        apply Hall. exact Hin'.
      * intros t' Ht'. destruct (Hc t' Ht') as [<- | Hin']; [contradiction |].
        exact Hin'.
Qed.

(** Forward fill over the rows of an outer join: every cell is the latest
    value of its own column. *)
Lemma ffill_from_latest (btc eth : series) (rows : list pair_row) :
  forall lb le : option Q,
  StronglySorted Z.lt (map pr_ts rows) ->
  (forall r, In r rows ->
     pr_btc r = lookup (pr_ts r) btc /\ pr_eth r = lookup (pr_ts r) eth) ->
  Spec.carried btc (map pr_ts rows) lb ->
  Spec.carried eth (map pr_ts rows) le ->
  forall r, In r (ffill_from lb le rows) ->
    Spec.latest_at btc (pr_ts r) (pr_btc r) /\
    Spec.latest_at eth (pr_ts r) (pr_eth r).
Proof.
  induction rows as [| r1 rows IH]; intros lb le Hs Hc Hb He r Hr;
    simpl in Hr; [destruct Hr |].
  simpl in Hs, Hb, He.
  destruct (Hc r1 (or_introl eq_refl)) as [Cb Ce].
  destruct (carried_step btc _ _ _ Hs Hb) as [Lb Kb].
  destruct (carried_step eth _ _ _ Hs He) as [Le Ke].
  rewrite <- Cb in Lb, Kb. rewrite <- Ce in Le, Ke.
  destruct Hr as [<- | Hr].
  - simpl. split; assumption.
  - apply (IH (carry (pr_btc r1) lb) (carry (pr_eth r1) le)); try assumption.
    + inversion Hs; assumption.
    + intros r' Hr'. apply Hc. right. exact Hr'.
Qed.

Lemma dedup_index (s : series) (t : Z) :
  In t (index (dedup s)) <-> In t (index s).
Proof.
  unfold dedup. destruct (is_unique (index s)); [tauto |].
  rewrite index_groupby_mean. apply sorted_keys_In.
Qed.

(** The rows of the joined and filled frame, before [dropna]. *)
Lemma filled_rows_latest (btc eth : series) (r : pair_row) :
  In r (ffill (concat_columns btc eth)) ->
  Spec.latest_at btc (pr_ts r) (pr_btc r) /\
  Spec.latest_at eth (pr_ts r) (pr_eth r).
Proof.
  unfold ffill. apply ffill_from_latest.
  - rewrite concat_columns_ts. apply sorted_keys_sorted.
  - apply concat_columns_In.
  - simpl. intros t Ht. rewrite concat_columns_ts.
    apply sorted_keys_In, in_or_app. left. exact Ht.
  - simpl. intros t Ht. rewrite concat_columns_ts.
    apply sorted_keys_In, in_or_app. right. exact Ht.
Qed.

Lemma dropna_keeps (rows : list pair_row) (r : pair_row) (x y : Q) :
  In r rows -> pr_btc r = Some x -> pr_eth r = Some y ->
  In {| bar_ts := pr_ts r; btc_price := x; eth_price := y |} (dropna rows).
Proof.
  induction rows as [| r1 rows IH]; simpl; [tauto |].
  intros [-> | Hin] Hx Hy.
  - rewrite Hx, Hy. left. reflexivity.
  - destruct (pr_btc r1); [destruct (pr_eth r1) |];
      try (apply IH; assumption).
    right. apply IH; assumption.
Qed.

Lemma index_nonempty (s : series) (t : Z) : In t (index s) -> is_empty s = false.
Proof. destruct s; [intros [] | reflexivity]. Qed.

Lemma is_empty_dedup (s : series) : is_empty (dedup s) = is_empty s.
Proof.
  destruct s as [| e s]; [reflexivity |].
  destruct (is_empty (dedup (e :: s))) eqn:E; [| reflexivity].
  assert (In (fst e) (index (dedup (e :: s)))) as H
      by (apply dedup_index; left; reflexivity).
  destruct (dedup (e :: s)); [destruct H | discriminate].
Qed.

(** Which timestamps the pair frame holds. *)
Lemma pair_data_ts_iff (df : frame) (t : Z) :
  In t (map bar_ts (get_pair_data df)) <->
  (In t (index (select_symbol BTC df)) \/ In t (index (select_symbol ETH df))) /\
  (exists tb, In tb (index (select_symbol BTC df)) /\ tb <= t) /\
  (exists te, In te (index (select_symbol ETH df)) /\ te <= t).
Proof.
  rewrite get_pair_data_selected. cbv zeta.
  set (btc := dedup (select_symbol BTC df)).
  set (eth := dedup (select_symbol ETH df)).
  split.
  - destruct (is_empty btc || is_empty eth); [intros [] |].
    intro H. apply in_map_iff in H. destruct H as [b [<- Hb]].
    apply dropna_In in Hb. destruct Hb as [r [Hr [Hts [Eb Ee]]]].
    assert (In (pr_ts r) (map pr_ts (ffill (concat_columns btc eth)))) as Hin
        by (apply in_map; exact Hr).
    unfold ffill in Hin. rewrite ffill_from_ts, concat_columns_ts in Hin.
    apply sorted_keys_In, in_app_or in Hin.
    destruct (filled_rows_latest btc eth r Hr) as [Lb Le].
    rewrite Eb in Lb. rewrite Ee in Le. rewrite Hts in *.
    destruct Lb as [tb [Hb1 [Hb2 _]]]. destruct Le as [te [He1 [He2 _]]].
    split; [| split].
    + destruct Hin as [Hin | Hin]; [left | right];
        apply dedup_index; exact Hin.
    + exists tb. split; [| exact Hb1].
      apply dedup_index. apply (in_map fst) in Hb2. exact Hb2.
    + exists te. split; [| exact He1].
      apply dedup_index. apply (in_map fst) in He2. exact He2.
  - intros [Hin [[tb [Hb1 Hb2]] [te [He1 He2]]]].
    apply dedup_index in Hb1. apply dedup_index in He1.
    fold btc in Hb1. fold eth in He1.
    rewrite (index_nonempty btc tb Hb1), (index_nonempty eth te He1). simpl.
    assert (In t (map pr_ts (ffill (concat_columns btc eth)))) as Hrow.
    { unfold ffill. rewrite ffill_from_ts, concat_columns_ts.
      apply sorted_keys_In, in_or_app.
      destruct Hin as [Hin | Hin]; [left | right]; apply dedup_index; exact Hin. }
    apply in_map_iff in Hrow. destruct Hrow as [r [Hts Hr]].
    destruct (filled_rows_latest btc eth r Hr) as [Lb Le].
    rewrite Hts in Lb, Le.
    destruct (pr_btc r) as [x |] eqn:Eb;
      [| simpl in Lb; specialize (Lb tb Hb1); lia].
    destruct (pr_eth r) as [y |] eqn:Ee;
      [| simpl in Le; specialize (Le te He1); lia].
    apply in_map_iff.
    exists {| bar_ts := pr_ts r; btc_price := x; eth_price := y |}.
    split; [exact Hts |]. apply dropna_keeps; assumption.
Qed.

End ForwardFillFacts.

(** ** Duplicate timestamps *)

Section DedupFacts.

Local Open Scope Z_scope.

Lemma at_most_one_row (t : Z) (l : list bar) :
  StronglySorted Z.lt (map bar_ts l) ->
  (List.length (filter (fun b => (bar_ts b =? t)%Z) l) <= 1)%nat.
Proof.
  intro Hs.
  assert (List.length (filter (fun b => bar_ts b =? t) l)
          = List.length (filter (fun k => k =? t) (map bar_ts l))) as ->
      by (rewrite filter_map_swap, length_map; reflexivity).
  destruct (in_dec Z.eq_dec t (map bar_ts l)) as [Hin | Hout].
  - rewrite filter_eqb_sorted by assumption. simpl. lia.
  - rewrite filter_eqb_none; [simpl; lia |].
    intros z Hz E. subst z. contradiction.
Qed.

Lemma Qmean_pair (p1 p2 : Q) : (Qmean [p1; p2] == (p1 + p2) / (2 # 1))%Q.
Proof.
  unfold Qmean, Qsum, Qlen. simpl. field.
Qed.

Lemma column_cases (sym : string) (b : bar) :
  sym = BTC \/ sym = ETH ->
  (sym = BTC /\ Spec.column sym b = btc_price b) \/
  (sym = ETH /\ Spec.column sym b = eth_price b).
Proof.
  intros [-> | ->]; [left | right]; split; reflexivity.
Qed.

Lemma only_row_at (t : Z) (l : list bar) (b : bar) :
  StronglySorted Z.lt (map bar_ts l) ->
  In b l -> bar_ts b = t ->
  filter (fun x => (bar_ts x =? t)%Z) l = [b].
Proof.
  intros Hs Hin Hb. induction l as [| a l IH]; [destruct Hin |].
  simpl in Hs. apply StronglySorted_inv in Hs. destruct Hs as [Hs Hall].
  rewrite Forall_forall in Hall. cbn [filter].
  destruct Hin as [-> | Hin].
  - rewrite Hb, Z.eqb_refl. f_equal.
    assert (List.length (filter (fun x => bar_ts x =? t) l) = 0%nat) as K.
    { assert (List.length (filter (fun x => bar_ts x =? t) l)
              = List.length (filter (fun k => k =? t) (map bar_ts l))) as ->
          by (rewrite filter_map_swap, length_map; reflexivity).
      rewrite filter_eqb_none; [reflexivity |].
      intros z Hz E. apply Hall in Hz. lia. }
    destruct (filter (fun x => bar_ts x =? t) l); [reflexivity | discriminate K].
  - assert (bar_ts a < bar_ts b) as Hlt
        by (apply Hall; apply in_map; exact Hin).
    assert ((bar_ts a =? t) = false) as -> by (apply Z.eqb_neq; lia).
    apply IH; assumption.
Qed.

Lemma other_symbol_cases (sym : string) :
  sym = BTC \/ sym = ETH ->
  (sym = BTC /\ Spec.other_symbol sym = ETH) \/
  (sym = ETH /\ Spec.other_symbol sym = BTC).
Proof.
  intros [-> | ->]; [left | right]; split; reflexivity.
Qed.

(** C2: when a tracked symbol has two or more ticks at timestamp [t],
    the deduplicated series holds exactly one point at [t], priced at the
    arithmetic mean of those ticks; the pair frame has at most one row at
    [t] and that row carries the mean as the symbol's price; for two ticks
    the mean is [(p1 + p2) / 2]; and once the other symbol has a tick at or
    before [t], the pair frame does hold a row at [t]: exactly one, and it
    carries the mean. *)
Theorem dedup_law (df : frame) (sym : string) (t : Z) :
  sym = BTC \/ sym = ETH ->
  (2 <= List.length (prices_at t (select_symbol sym df)))%nat ->
  prices_at t (dedup (select_symbol sym df))
    = [Qmean (prices_at t (select_symbol sym df))] /\
  (List.length (filter (fun b => (bar_ts b =? t)%Z) (get_pair_data df)) <= 1)%nat /\
  (forall b, In b (get_pair_data df) -> bar_ts b = t ->
             Spec.column sym b = Qmean (prices_at t (select_symbol sym df))) /\
  (forall p1 p2, prices_at t (select_symbol sym df) = [p1; p2] ->
             (Qmean (prices_at t (select_symbol sym df))
              == (p1 + p2) / (2 # 1))%Q) /\
  ((exists u, In u (index (select_symbol (Spec.other_symbol sym) df)) /\ u <= t) ->
   exists b, filter (fun b => (bar_ts b =? t)%Z) (get_pair_data df) = [b] /\
             bar_ts b = t /\
             Spec.column sym b = Qmean (prices_at t (select_symbol sym df))).
Proof.
  intros Hsym Hdup.
  assert (In t (index (select_symbol sym df))) as Hin
      by (apply prices_at_In_index; lia).
  pose proof (dedup_duplicated _ _ Hdup) as Hd.
  assert (forall b, In b (get_pair_data df) -> bar_ts b = t ->
            Spec.column sym b = Qmean (prices_at t (select_symbol sym df)))
    as Hmean.
  { intros b Hb Hts. rewrite get_pair_data_selected in Hb. simpl in Hb.
    destruct (is_empty (dedup (select_symbol BTC df))
              || is_empty (dedup (select_symbol ETH df))); [destruct Hb |].
    apply pair_cell_at_own_timestamp in Hb. destruct Hb as [Kb Ke].
    rewrite Hts in Kb, Ke.
    destruct (column_cases sym b Hsym) as [[-> ->] | [-> ->]].
    + apply Kb. rewrite Hd. apply lookup_groupby_mean. exact Hin.
    + apply Ke. rewrite Hd. apply lookup_groupby_mean. exact Hin. }
  split; [| split; [| split; [| split]]].
  - rewrite Hd. apply prices_at_groupby_mean. exact Hin.
  - apply at_most_one_row. apply pair_data_sorted.
  - exact Hmean.
  - intros p1 p2 E. rewrite E. apply Qmean_pair.
  - intros [u [Hu Hle]].
    assert (In t (map bar_ts (get_pair_data df))) as Hrow.
    { apply pair_data_ts_iff.
      destruct (other_symbol_cases sym Hsym) as [[-> Ho] | [-> Ho]];
        rewrite Ho in Hu.
      - split; [left; exact Hin |].
        split; [exists t; split; [exact Hin | lia] | exists u; split; assumption].
      - split; [right; exact Hin |].
        split; [exists u; split; assumption | exists t; split; [exact Hin | lia]]. }
    apply in_map_iff in Hrow. destruct Hrow as [b [Hb Hbin]].
    exists b. split; [| split; [exact Hb | apply Hmean; assumption]].
    apply only_row_at; [apply pair_data_sorted | exact Hbin | exact Hb].
Qed.

End DedupFacts.

(** ** Rolling windows *)

Section RollingFacts.

Lemma firstn_as_nth (d : Q) (w : nat) :
  forall xs : list Q, (w <= List.length xs)%nat ->
  firstn w xs = map (fun j => nth j xs d) (seq 0 w).
Proof.
  induction w as [| w IH]; intros xs H; [reflexivity |].
  destruct xs as [| x xs]; [simpl in H; lia |].
  simpl in H. cbn [firstn seq map nth]. f_equal.
  rewrite <- seq_shift, map_map. apply IH. lia.
Qed.

Lemma window_as_nth (d : Q) (a w : nat) :
  forall xs : list Q, (a + w <= List.length xs)%nat ->
  firstn w (skipn a xs) = map (fun j => nth j xs d) (seq a w).
Proof.
  induction a as [| a IH]; intros xs H.
  - apply firstn_as_nth. exact H.
  - destruct xs as [| x xs]; [simpl in H; lia |].
    simpl in H. cbn [skipn]. rewrite <- seq_shift, map_map.
    cbn [nth]. apply IH. lia.
Qed.

(** The window the program slices is the one the specification indexes. *)
Lemma window_trailing (w i : nat) (xs : list Q) :
  (w <= S i)%nat -> (i < List.length xs)%nat ->
  window w i xs = Spec.trailing w i xs.
Proof.
  intros Hw Hi. unfold window, Spec.trailing.
  apply window_as_nth. lia.
Qed.

Lemma trailing_length (w i : nat) (xs : list Q) :
  List.length (Spec.trailing w i xs) = w.
Proof.
  unfold Spec.trailing. rewrite length_map, length_seq. reflexivity.
Qed.

Lemma trailing_last (w i : nat) (xs : list Q) :
  (1 <= w)%nat -> (w <= S i)%nat ->
  In (nth i xs (0 # 1)%Q) (Spec.trailing w i xs).
Proof.
  intros H1 H2. unfold Spec.trailing.
  apply in_map_iff. exists i. split; [reflexivity |].
  apply in_seq. lia.
Qed.

Lemma rolling_length {A : Type} (w ddof : nat) (stat : list A -> fval)
    (xs : list A) :
  List.length (rolling w ddof stat xs) = List.length xs.
Proof.
  unfold rolling. rewrite length_map, length_seq. reflexivity.
Qed.

Lemma rolling_nth {A : Type} (w ddof : nat) (stat : list A -> fval)
    (xs : list A) (i : nat) :
  (i < List.length xs)%nat ->
  nth i (rolling w ddof stat xs) NaN
  = if ((w <=? S i) && (ddof <? w))%nat then stat (window w i xs) else NaN.
Proof.
  intro H. unfold rolling.
  set (F := fun i : nat =>
    if ((w <=? S i) && (ddof <? w))%nat then stat (window w i xs) else NaN).
  rewrite (nth_indep _ NaN (F 0%nat)) by (rewrite length_map, length_seq; exact H).
  rewrite map_nth, seq_nth by exact H. reflexivity.
Qed.

Lemma map3_length {A B C D : Type} (f : A -> B -> C -> D) (la : list A) :
  forall (lb : list B) (lc : list C),
  List.length lb = List.length la -> List.length lc = List.length la ->
  List.length (map3 f la lb lc) = List.length la.
Proof.
  induction la as [| a la IH]; intros lb lc Hb Hc; [reflexivity |].
  destruct lb as [| b lb]; [discriminate |].
  destruct lc as [| c lc]; [discriminate |].
  simpl in *. f_equal. apply IH; lia.
Qed.

Lemma map3_nth {A B C D : Type} (f : A -> B -> C -> D)
    (da : A) (db : B) (dc : C) (dd : D) (la : list A) :
  forall (lb : list B) (lc : list C) (i : nat),
  List.length lb = List.length la -> List.length lc = List.length la ->
  (i < List.length la)%nat ->
  nth i (map3 f la lb lc) dd = f (nth i la da) (nth i lb db) (nth i lc dc).
Proof.
  induction la as [| a la IH]; intros lb lc i Hb Hc Hi; [simpl in Hi; lia |].
  destruct lb as [| b lb]; [discriminate |].
  destruct lc as [| c lc]; [discriminate |].
  destruct i as [| i]; [reflexivity |].
  simpl in *. apply IH; lia.
Qed.

Lemma z_score_of_length (w : nat) (sp : list Q) :
  List.length (z_score_of w sp) = List.length sp.
Proof.
  unfold z_score_of. apply map3_length; apply rolling_length.
Qed.

(** The z-score cell at [i], before any case analysis. *)
Lemma z_score_of_nth (w i : nat) (sp : list Q) :
  (i < List.length sp)%nat ->
  nth i (z_score_of w sp) NaN
  = fdiv (fsub (Fin (Q2R (nth i sp (0 # 1)%Q)))
               (nth i (rolling_mean w sp) NaN))
         (nth i (rolling_std w sp) NaN).
Proof.
  intro H. unfold z_score_of.
  rewrite (map3_nth _ (0 # 1)%Q NaN NaN NaN sp _ _ i);
    try apply rolling_length; [reflexivity | exact H].
Qed.

(** Before the window is full the cell is NaN. *)
Lemma z_score_of_prefix (w i : nat) (sp : list Q) :
  (i < List.length sp)%nat -> (S i < w)%nat ->
  nth i (z_score_of w sp) NaN = NaN.
Proof.
  intros Hi Hw. rewrite z_score_of_nth by exact Hi.
  unfold rolling_mean. rewrite rolling_nth by exact Hi.
  assert ((w <=? S i)%nat = false) as -> by (apply Nat.leb_gt; exact Hw).
  reflexivity.
Qed.

(** Called on fewer rows than the window, the z-score column is NaN
    throughout: the length guard of the script is what keeps such a column
    off the page. *)
Lemma z_score_of_short (w i : nat) (sp : list Q) :
  (List.length sp < w)%nat -> (i < List.length sp)%nat ->
  nth i (z_score_of w sp) NaN = NaN.
Proof.
  intros Hs Hi. apply z_score_of_prefix; lia.
Qed.

(** With a window of fewer than two observations every cell is NaN. *)
Lemma z_score_of_tiny_window (w i : nat) (sp : list Q) :
  (i < List.length sp)%nat -> (w <= 1)%nat ->
  nth i (z_score_of w sp) NaN = NaN.
Proof.
  intros Hi Hw. rewrite z_score_of_nth by exact Hi.
  unfold rolling_std. rewrite (rolling_nth w 1) by exact Hi.
  assert ((1 <? w)%nat = false) as -> by (apply Nat.ltb_ge; exact Hw).
  rewrite andb_false_r.
  destruct (fsub _ _); reflexivity.
Qed.

(** Once the window is full the cell is the quotient of the deviation by
    the standard deviation, as floating-point division gives it. *)
Lemma z_score_of_full (w i : nat) (sp : list Q) :
  (i < List.length sp)%nat -> (2 <= w)%nat -> (w <= S i)%nat ->
  nth i (z_score_of w sp) NaN
  = fdiv (Fin (Q2R (nth i sp (0 # 1)%Q) - Q2R (Qmean (Spec.trailing w i sp))))
         (Fin (sample_std (Spec.trailing w i sp))).
Proof.
  intros Hi H2 Hw. rewrite z_score_of_nth by exact Hi.
  unfold rolling_mean, rolling_std. rewrite !rolling_nth by exact Hi.
  assert ((w <=? S i)%nat = true) as -> by (apply Nat.leb_le; exact Hw).
  assert ((0 <? w)%nat = true) as -> by (apply Nat.ltb_lt; lia).
  assert ((1 <? w)%nat = true) as -> by (apply Nat.ltb_lt; lia).
  simpl. rewrite window_trailing by assumption. reflexivity.
Qed.

Lemma rolling_corr_of_length (w : nat) (xs ys : list Q) :
  List.length xs = List.length ys ->
  List.length (rolling_corr_of w xs ys) = List.length xs.
Proof.
  intro H. unfold rolling_corr_of.
  rewrite rolling_length, length_combine, <- H. apply Nat.min_id.
Qed.

Lemma rolling_corr_of_prefix (w i : nat) (xs ys : list Q) :
  (S i < w)%nat -> nth i (rolling_corr_of w xs ys) NaN = NaN.
Proof.
  intro Hw. unfold rolling_corr_of.
  destruct (Nat.lt_ge_cases i (List.length (combine xs ys))) as [Hi | Hi].
  - rewrite rolling_nth by exact Hi.
    assert ((w <=? S i)%nat = false) as -> by (apply Nat.leb_gt; exact Hw).
    reflexivity.
  - apply nth_overflow. rewrite rolling_length. exact Hi.
Qed.

End RollingFacts.

(** ** Variance in exact arithmetic *)

Section VarianceFacts.

Local Open Scope Q_scope.

Lemma sq_nonneg (x : Q) : 0 <= sq x.
Proof.
  unfold sq. destruct (Qlt_le_dec x 0) as [H | H].
  - setoid_replace (x * x) with ((- x) * (- x)) by ring.
    apply Qmult_le_0_compat; lra.
  - apply Qmult_le_0_compat; exact H.
Qed.

Lemma sq_zero (x : Q) : sq x == 0 -> x == 0.
Proof.
  unfold sq. intro H. apply Qmult_integral in H. tauto.
Qed.

Lemma Qsum_nonneg (l : list Q) :
  (forall x, In x l -> 0 <= x) -> 0 <= Qsum l.
Proof.
  induction l as [| y l IH]; intro H; simpl; [lra |].
  assert (0 <= y) by (apply H; left; reflexivity).
  assert (0 <= Qsum l) by (apply IH; intros x Hx; apply H; right; exact Hx).
  lra.
Qed.

Lemma Qsum_zero_all (l : list Q) :
  (forall x, In x l -> 0 <= x) -> Qsum l == 0 ->
  forall x, In x l -> x == 0.
Proof.
  induction l as [| y l IH]; intros H E x Hx; [destruct Hx |].
  simpl in E.
  assert (0 <= y) by (apply H; left; reflexivity).
  assert (0 <= Qsum l)
    by (apply Qsum_nonneg; intros z Hz; apply H; right; exact Hz).
  destruct Hx as [<- | Hx]; [lra |].
  apply IH; [intros z Hz; apply H; right; exact Hz | lra | exact Hx].
Qed.

Lemma sum_sq_dev_nonneg (l : list Q) : 0 <= sum_sq_dev l.
Proof.
  unfold sum_sq_dev. apply Qsum_nonneg. intros x Hx.
  apply in_map_iff in Hx. destruct Hx as [y [<- _]]. apply sq_nonneg.
Qed.

(** No spread about the mean: every value is the mean. *)
Lemma sum_sq_dev_zero (l : list Q) :
  sum_sq_dev l == 0 -> forall x, In x l -> x == Qmean l.
Proof.
  unfold sum_sq_dev. intros E x Hx.
  assert (forall y, In y (map (fun x => sq (x - Qmean l)) l) -> 0 <= y) as Hnn.
  { intros y Hy. apply in_map_iff in Hy. destruct Hy as [z [<- _]].
    apply sq_nonneg. }
  assert (sq (x - Qmean l) == 0) as K.
  { apply (Qsum_zero_all _ Hnn E).
    apply in_map_iff. exists x. split; [reflexivity | exact Hx]. }
  apply sq_zero in K. lra.
Qed.

Lemma Qlen_minus_one_pos (l : list Q) :
  (2 <= List.length l)%nat -> 0 < Qlen l - 1.
Proof.
  intro H. unfold Qlen.
  assert (inject_Z 2 <= inject_Z (Z.of_nat (List.length l))) as K.
  { rewrite <- Zle_Qle. lia. }
  change (inject_Z 2) with (2 # 1) in K. lra.
Qed.

Lemma sample_var_nonneg (l : list Q) :
  (2 <= List.length l)%nat -> 0 <= sample_var l.
Proof.
  intro H. unfold sample_var. apply Qle_shift_div_l.
  - apply Qlen_minus_one_pos. exact H.
  - pose proof (sum_sq_dev_nonneg l). lra.
Qed.

Lemma sample_var_zero (l : list Q) :
  (2 <= List.length l)%nat -> sample_var l == 0 -> sum_sq_dev l == 0.
Proof.
  intros H E. unfold sample_var in E.
  pose proof (Qlen_minus_one_pos l H) as Hd.
  assert (~ Qlen l - 1 == 0) as Hn by lra.
  rewrite <- (Qmult_div_r (sum_sq_dev l) (Qlen l - 1) Hn). rewrite E. ring.
Qed.

Lemma sample_std_zero (l : list Q) :
  (2 <= List.length l)%nat ->
  (sample_std l = 0%R <-> sample_var l == 0).
Proof.
  intro H. unfold sample_std. split; intro E.
  - apply sqrt_eq_0 in E.
    + apply eqR_Qeq. rewrite E. symmetry. apply RMicromega.Q2R_0.
    + rewrite <- RMicromega.Q2R_0. apply Qle_Rle. apply sample_var_nonneg. exact H.
  - apply Qeq_eqR in E. rewrite E, RMicromega.Q2R_0. apply sqrt_0.
Qed.

Lemma Qlen_cons (x : Q) (l : list Q) : Qlen (x :: l) == 1 + Qlen l.
Proof.
  unfold Qlen. cbn [List.length]. rewrite Nat2Z.inj_succ.
  unfold Z.succ. rewrite inject_Z_plus. change (inject_Z 1) with 1. ring.
Qed.

Lemma Qlen_nonneg (l : list Q) : 0 <= Qlen l.
Proof.
  unfold Qlen. change 0 with (inject_Z 0). rewrite <- Zle_Qle. lia.
Qed.

Lemma Qsum_const (c : Q) (l : list Q) :
  (forall x, In x l -> x == c) -> Qsum l == Qlen l * c.
Proof.
  induction l as [| y l IH]; intro H.
  - unfold Qlen. simpl. ring.
  - cbn [Qsum fold_right]. fold (Qsum l).
    rewrite Qlen_cons, IH by (intros x Hx; apply H; right; exact Hx).
    rewrite (H y) by (left; reflexivity). ring.
Qed.

Lemma Qsum_all_zero (l : list Q) :
  (forall x, In x l -> x == 0) -> Qsum l == 0.
Proof.
  intro H. rewrite (Qsum_const 0 l H). ring.
Qed.

(** A list that repeats one value has no variance. *)
Lemma flat_list_var (c : Q) (l : list Q) :
  (forall x, In x l -> x == c) -> sample_var l == 0.
Proof.
  intro H.
  assert (sum_sq_dev l == 0) as E.
  { destruct l as [| y l]; [reflexivity |].
    assert (Qmean (y :: l) == c) as Hm.
    { unfold Qmean. rewrite (Qsum_const c _ H).
      pose proof (Qlen_nonneg l). pose proof (Qlen_cons y l) as K.
      field. lra. }
    unfold sum_sq_dev. apply Qsum_all_zero. intros x Hx.
    apply in_map_iff in Hx. destruct Hx as [z [<- Hz]].
    unfold sq. rewrite Hm, (H z Hz). ring. }
  unfold sample_var. rewrite E. unfold Qdiv. ring.
Qed.

(** A window with no variance holds one value, its mean. *)
Lemma flat_window_mean (l : list Q) (x : Q) :
  (2 <= List.length l)%nat -> sample_var l == 0 -> In x l ->
  Q2R x = Q2R (Qmean l).
Proof.
  intros H E Hx. apply Qeq_eqR. apply sum_sq_dev_zero; [| exact Hx].
  apply sample_var_zero; assumption.
Qed.

End VarianceFacts.

(** ** The rolling z-score *)

Section ZScoreFacts.

Variable L : libs.

Lemma calculate_analytics_fields (df : list bar) (w : nat) (a : analytics) :
  calculate_analytics L df w = Returned a ->
  hedge_ratio a = ols_slope L (map btc_price df) (map eth_price df) /\
  spread a = spread_of (hedge_ratio a) df /\
  z_score a = z_score_of w (spread a) /\
  rolling_corr a = rolling_corr_of w (map btc_price df) (map eth_price df).
Proof.
  unfold calculate_analytics. destruct (adfuller L _); [| discriminate].
  intro H. injection H as <-. simpl. auto.
Qed.

Lemma spread_of_length (hr : Q) (df : list bar) :
  List.length (spread_of hr df) = List.length df.
Proof. unfold spread_of. apply length_map. Qed.

(** Past the prefix, a window with spread gives the written quotient. *)
Lemma z_score_of_defined (w i : nat) (sp : list Q) :
  (i < List.length sp)%nat -> (2 <= w)%nat -> (w <= S i)%nat ->
  sample_std (Spec.trailing w i sp) <> 0%R ->
  nth i (z_score_of w sp) NaN = Fin (Spec.z_formula w i sp).
Proof.
  intros Hi H2 Hw Hsd. rewrite z_score_of_full by assumption.
  unfold fdiv. destruct (Req_dec_T _ 0) as [E | _]; [contradiction |].
  reflexivity.
Qed.

(** Past the prefix, a window without spread gives 0/0. *)
Lemma z_score_of_flat (w i : nat) (sp : list Q) :
  (i < List.length sp)%nat -> (2 <= w)%nat -> (w <= S i)%nat ->
  sample_std (Spec.trailing w i sp) = 0%R ->
  nth i (z_score_of w sp) NaN = NaN.
Proof.
  intros Hi H2 Hw Hsd. rewrite z_score_of_full by assumption.
  assert (2 <= List.length (Spec.trailing w i sp))%nat as Hlen
      by (rewrite trailing_length; exact H2).
  assert (Q2R (nth i sp (0 # 1)%Q) = Q2R (Qmean (Spec.trailing w i sp))) as E.
  { apply flat_window_mean; [exact Hlen | | apply trailing_last; lia].
    apply sample_std_zero; assumption. }
  rewrite E, Hsd. unfold fdiv.
  destruct (Req_dec_T 0 0) as [_ | N]; [| exfalso; apply N; reflexivity].
  destruct (Req_dec_T _ 0) as [_ | N]; [reflexivity |].
  exfalso. apply N. lra.
Qed.

(** C1: the z-score column has one cell per row; for a window of at least
    two, a cell in the first [w-1] positions is NaN, and a later cell is
    [(spread[i] - mean) / sample_std] over positions [i-w+1 .. i] when that
    standard deviation is not zero, and NaN when it is zero. *)
Theorem rolling_z_score (df : list bar) (w : nat) (a : analytics) (i : nat) :
  calculate_analytics L df w = Returned a ->
  (2 <= w)%nat ->
  (i < List.length df)%nat ->
  List.length (z_score a) = List.length df /\
  spread a = spread_of (hedge_ratio a) df /\
  ((S i < w)%nat -> nth i (z_score a) (Fin 0) = NaN) /\
  ((w <= S i)%nat ->
   sample_std (Spec.trailing w i (spread a)) <> 0%R ->
   nth i (z_score a) NaN = Fin (Spec.z_formula w i (spread a))) /\
  ((w <= S i)%nat ->
   sample_std (Spec.trailing w i (spread a)) = 0%R ->
   nth i (z_score a) (Fin 0) = NaN).
Proof.
  intros Hc H2 Hi.
  destruct (calculate_analytics_fields df w a Hc) as [_ [Hsp [Hz _]]].
  assert (List.length (spread a) = List.length df) as Hlen
      by (rewrite Hsp; apply spread_of_length).
  assert (i < List.length (z_score a))%nat as Hiz
      by (rewrite Hz, z_score_of_length, Hlen; exact Hi).
  rewrite <- Hlen in Hi.
  split; [rewrite Hz, z_score_of_length; exact Hlen |].
  split; [exact Hsp |].
  split; [| split].
  - intro Hw. rewrite (nth_indep _ _ NaN) by exact Hiz.
    rewrite Hz. apply z_score_of_prefix; assumption.
  - intros Hw Hsd. rewrite Hz. apply z_score_of_defined; assumption.
  - intros Hw Hsd. rewrite (nth_indep _ _ NaN) by exact Hiz.
    rewrite Hz. apply z_score_of_flat; assumption.
Qed.

(** The boundary for a window of fifty: cells 0..48 are NaN, and cell 49
    is computed from [spread[0..49]]. *)
Corollary z_score_window_50 (df : list bar) (a : analytics) :
  calculate_analytics L df 50 = Returned a ->
  (50 <= List.length df)%nat ->
  (forall i, (i <= 48)%nat -> nth i (z_score a) NaN = NaN) /\
  Spec.trailing 50 49 (spread a) = firstn 50 (spread a) /\
  (sample_std (firstn 50 (spread a)) <> 0%R ->
   nth 49 (z_score a) NaN = Fin (Spec.z_formula 50 49 (spread a))).
Proof.
  intros Hc Hlen.
  destruct (calculate_analytics_fields df 50 a Hc) as [_ [Hsp [Hz _]]].
  assert (List.length (spread a) = List.length df) as Hl
      by (rewrite Hsp; apply spread_of_length).
  assert (Spec.trailing 50 49 (spread a) = firstn 50 (spread a)) as Ht.
  { symmetry. apply (firstn_as_nth (0 # 1)%Q). lia. }
  split; [| split; [exact Ht |]].
  - intros i Hi. rewrite Hz. apply z_score_of_prefix; lia.
  - intro Hsd. rewrite Hz. apply z_score_of_defined; try lia.
    rewrite Ht. exact Hsd.
Qed.

End ZScoreFacts.

(** ** Degenerate inputs and the alert *)

Section DegenerateFacts.

Variable L : libs.

Lemma last_as_nth {A : Type} (d : A) (l : list A) :
  last l d = nth (List.length l - 1) l d.
Proof.
  induction l as [| x l IH]; [reflexivity |].
  destruct l as [| y l]; [reflexivity |].
  change (last (x :: y :: l) d) with (last (y :: l) d).
  rewrite IH. simpl. rewrite ?Nat.sub_0_r. reflexivity.
Qed.

Lemma run_analytics_long (df : list bar) (w : nat) (thr : R) (a : analytics) :
  (1 <= w)%nat -> (w <= List.length df)%nat ->
  calculate_analytics L df w = Returned a ->
  run_analytics L df w thr
  = Dashboard a (last (z_score a) NaN) (alert (last (z_score a) NaN) thr).
Proof.
  intros H1 Hw Hc. unfold run_analytics.
  destruct df as [| b df]; [simpl in Hw; lia |].
  cbn [is_empty orb].
  assert ((List.length (b :: df) <? w)%nat = false) as ->
      by (apply Nat.ltb_ge; exact Hw).
  rewrite Hc. reflexivity.
Qed.

(** A z-score cell is NaN or finite: with exact arithmetic a vanishing
    standard deviation comes with a vanishing deviation. *)
Lemma z_score_of_cell (w i : nat) (sp : list Q) :
  (i < List.length sp)%nat ->
  nth i (z_score_of w sp) NaN = NaN \/
  exists r, nth i (z_score_of w sp) NaN = Fin r.
Proof.
  intro Hi.
  destruct (Nat.le_gt_cases w 1) as [H1 | H2];
    [left; apply z_score_of_tiny_window; assumption |].
  destruct (Nat.le_gt_cases w (S i)) as [Hw | Hw];
    [| left; apply z_score_of_prefix; assumption].
  destruct (Req_dec_T (sample_std (Spec.trailing w i sp)) 0) as [E | N].
  - left. apply z_score_of_flat; assumption.
  - right. eexists. apply z_score_of_defined; assumption.
Qed.

(** With no variance over the last window the current z-score is NaN and
    the run still reaches the alert, which stays silent. *)
Lemma run_analytics_flat_tail (df : list bar) (w : nat) (thr : R)
    (a : analytics) :
  calculate_analytics L df w = Returned a ->
  (2 <= w)%nat -> (w <= List.length df)%nat ->
  (sample_var (Spec.trailing w (List.length df - 1) (spread a)) == 0)%Q ->
  run_analytics L df w thr = Dashboard a NaN false.
Proof.
  intros Hc H2 Hw Hvar.
  destruct (calculate_analytics_fields L df w a Hc) as [_ [Hsp [Hz _]]].
  assert (List.length (spread a) = List.length df) as Hlen
      by (rewrite Hsp; apply spread_of_length).
  rewrite (run_analytics_long df w thr a) by (assumption || lia).
  assert (last (z_score a) NaN = NaN) as ->; [| reflexivity].
  rewrite last_as_nth, Hz, z_score_of_length, Hlen.
  apply z_score_of_flat; try lia.
  apply sample_std_zero; [rewrite trailing_length; exact H2 | exact Hvar].
Qed.

(** C4: when the spread has no variance over the window that ends at the
    last row, the run shows the ordinary dashboard with a NaN current
    z-score, and the alert comparison on that NaN is false; a regression
    design whose btc column is flat likewise leads to the ordinary
    dashboard, with the slope the fit reports. *)
Theorem degenerate_inputs_propagate (df : list bar) (w : nat) (thr : R)
    (a : analytics) :
  calculate_analytics L df w = Returned a ->
  (2 <= w)%nat -> (w <= List.length df)%nat ->
  ((sample_var (Spec.trailing w (List.length df - 1) (spread a)) == 0)%Q ->
   run_analytics L df w thr = Dashboard a NaN false) /\
  ((sum_sq_dev (map btc_price df) == 0)%Q ->
   hedge_ratio a = flat_regressor_slope L (map btc_price df) (map eth_price df)
   /\ exists z b, run_analytics L df w thr = Dashboard a z b).
Proof.
  intros Hc H2 Hw.
  destruct (calculate_analytics_fields L df w a Hc) as [Hhr _].
  split.
  - intro Hvar. apply run_analytics_flat_tail; assumption.
  - intro Hx. split.
    + rewrite Hhr. unfold ols_slope.
      apply Qeq_bool_iff in Hx. rewrite Hx. reflexivity.
    + rewrite (run_analytics_long df w thr a) by (assumption || lia). eauto.
Qed.

End DegenerateFacts.

(** ** Fewer rows than the window *)

Section ShortSeriesFacts.

Variable L : libs.

Lemma all_nan (l : list fval) :
  (forall i, (i < List.length l)%nat -> nth i l NaN = NaN) ->
  Forall (fun c => c = NaN) l.
Proof.
  intro H. apply Forall_forall. intros c Hc.
  destruct (In_nth l c NaN Hc) as [i [Hi E]].
  rewrite <- E. apply H. exact Hi.
Qed.

(** What [calculate_analytics] hands back when it is called on fewer rows
    than the window: columns of the frame's length, NaN in every cell. *)
Lemma short_series_cells (df : list bar) (w : nat) (a : analytics) :
  (List.length df < w)%nat ->
  calculate_analytics L df w = Returned a ->
  List.length (z_score a) = List.length df /\
  List.length (rolling_corr a) = List.length df /\
  Forall (fun c => c = NaN) (z_score a) /\
  Forall (fun c => c = NaN) (rolling_corr a).
Proof.
  intros Hs Hc.
  destruct (calculate_analytics_fields L df w a Hc) as [_ [Hsp [Hz Hrc]]].
  assert (List.length (spread a) = List.length df) as Hlen
      by (rewrite Hsp; apply spread_of_length).
  assert (List.length (z_score a) = List.length df) as Lz
      by (rewrite Hz, z_score_of_length; exact Hlen).
  assert (List.length (rolling_corr a) = List.length df) as Lc
      by (rewrite Hrc, rolling_corr_of_length; rewrite !length_map; reflexivity).
  split; [exact Lz |]. split; [exact Lc |]. split; apply all_nan.
  - intros i Hi. rewrite Hz. apply z_score_of_short; lia.
  - intros i Hi. rewrite Hrc. apply rolling_corr_of_prefix. lia.
Qed.

(** The only way [calculate_analytics] fails is the stationarity routine's
    own failure; the number of rows is never compared with the window. *)
Lemma calculate_analytics_raises (df : list bar) (w : nat) :
  calculate_analytics L df w = Raised <->
  adfuller L (spread_of (ols_slope L (map btc_price df) (map eth_price df)) df)
  = None.
Proof.
  unfold calculate_analytics.
  destruct (adfuller L _); split; intro H; try discriminate; reflexivity.
Qed.

(** C3: with fewer resampled points than the window, the run stops at the
    script's "waiting for more data" notice; no analytics are computed and
    no dashboard (hence no z-score or correlation column) is produced.  The
    check is the script's: [calculate_analytics] itself compares nothing
    with the window, fails only where the stationarity routine fails, and
    when it returns on such a frame its z-score and correlation columns
    hold NaN in every cell. *)
Theorem insufficient_data_rejected (s : list bar) (w : nat) (thr : R) :
  (List.length s < w)%nat ->
  run_analytics L s w thr = WaitingForMoreData w /\
  (forall db iv raw,
      load_data L db = Returned raw ->
      resample iv (get_pair_data raw) = s ->
      forall a z b, main L db iv w thr <> Dashboard a z b) /\
  (calculate_analytics L s w = Raised <->
   adfuller L (spread_of (ols_slope L (map btc_price s) (map eth_price s)) s)
   = None) /\
  (forall a, calculate_analytics L s w = Returned a ->
      List.length (z_score a) = List.length s /\
      List.length (rolling_corr a) = List.length s /\
      Forall (fun c => c = NaN) (z_score a) /\
      Forall (fun c => c = NaN) (rolling_corr a)).
Proof.
  intro H. split; [apply run_analytics_short; exact H |]. split; [| split].
  - intros db iv raw Hload Hres a z b. unfold main. rewrite Hload.
    destruct (is_empty raw); [discriminate |].
    destruct (is_empty (get_pair_data raw)); [discriminate |].
    rewrite Hres, run_analytics_short by exact H. discriminate.
  - exact (calculate_analytics_raises s w).
  - intros a Hc. exact (short_series_cells s w a H Hc).
Qed.

End ShortSeriesFacts.

(** ** Normalising a trade message *)

Section IngestFacts.

Local Open Scope Z_scope.

(** C5: the stored timestamp is the ISO-8601 text of the host's local
    wall-clock reading of the trade time, that is the UTC text of the
    instant shifted by the host's offset; on a host whose offset is zero
    at that instant it is the UTC text of the trade time itself. *)
Theorem stored_timestamp_is_host_local
    (h : Ingest.host) (sym : string) (data : Ingest.trade_msg)
    (T : Z) (p q : Q) :
  Ingest.msg_T data = Some T ->
  Ingest.msg_p data = Some p ->
  Ingest.msg_q data = Some q ->
  Ingest.MINYEAR
    <= Ingest.year (Ingest.datetime_of_wall_ms (T + Ingest.utcoffset_ms h T))
    <= Ingest.MAXYEAR ->
  Ingest.normalize_trade_data h sym data
  = Some {| Ingest.tick_ts := Ingest.utc_isoformat (T + Ingest.utcoffset_ms h T);
            Ingest.tick_symbol := sym;
            Ingest.tick_price := p;
            Ingest.tick_size := q |} /\
  (Ingest.utcoffset_ms h T = 0 ->
   option_map Ingest.tick_ts (Ingest.normalize_trade_data h sym data)
   = Some (Ingest.utc_isoformat T)).
Proof.
  intros HT Hp Hq [Hlo Hhi].
  assert (Ingest.normalize_trade_data h sym data
          = Some {| Ingest.tick_ts :=
                      Ingest.utc_isoformat (T + Ingest.utcoffset_ms h T);
                    Ingest.tick_symbol := sym;
                    Ingest.tick_price := p;
                    Ingest.tick_size := q |}) as E.
  { unfold Ingest.normalize_trade_data, Ingest.fromtimestamp.
    rewrite HT, Hp, Hq.
    assert ((Ingest.year (Ingest.datetime_of_wall_ms (T + Ingest.utcoffset_ms h T))
             <? Ingest.MINYEAR) = false) as -> by (apply Z.ltb_ge; exact Hlo).
    assert ((Ingest.MAXYEAR
             <? Ingest.year (Ingest.datetime_of_wall_ms (T + Ingest.utcoffset_ms h T)))
            = false) as -> by (apply Z.ltb_ge; exact Hhi).
    reflexivity. }
  split; [exact E |].
  intro H0. rewrite E. simpl. rewrite H0, Z.add_0_r. reflexivity.
Qed.

Lemma stored_timestamp_is_host_local_witness :
  let h := Ingest.fixed_offset_host 330 in
  Ingest.msg_T Samples.sample_msg = Some 1700000000123 /\
  Ingest.normalize_trade_data h App.BTC Samples.sample_msg
  = Some {| Ingest.tick_ts := Ingest.utc_isoformat (1700000000123 + 19800000);
            Ingest.tick_symbol := App.BTC;
            Ingest.tick_price := (35000 # 1)%Q;
            Ingest.tick_size := (1 # 2)%Q |}.
Proof.
  split; [reflexivity |].
  apply (stored_timestamp_is_host_local
           (Ingest.fixed_offset_host 330) App.BTC Samples.sample_msg
           1700000000123 (35000 # 1)%Q (1 # 2)%Q);
    try reflexivity.
  vm_compute. split; discriminate.
Defined.

(** On a host five and a half hours ahead of UTC the stored text is not
    the UTC text of the trade time, and it differs from what a host on UTC
    stores for the same message. *)
Lemma stored_timestamp_depends_on_host :
  option_map Ingest.tick_ts
    (Ingest.normalize_trade_data (Ingest.fixed_offset_host 330)
       App.BTC Samples.sample_msg)
  = Some "2023-11-15T03:43:20.123000"%string /\
  Ingest.utc_isoformat 1700000000123 = "2023-11-14T22:13:20.123000"%string /\
  Ingest.normalize_trade_data (Ingest.fixed_offset_host 330)
    App.BTC Samples.sample_msg
  <> Ingest.normalize_trade_data Ingest.utc_host App.BTC Samples.sample_msg.
Proof.
  split; [vm_compute; reflexivity |].
  split; [vm_compute; reflexivity |].
  intro H. vm_compute in H. discriminate H.
Qed.

End IngestFacts.

(** ** The statements on the sample inputs *)

Section SampleChecks.

Local Open Scope Z_scope.

(** During the quiet tail every spread value of the last window is the
    same, whatever the hedge ratio. *)
Lemma quiet_tail_flat (hr : Q) :
  (sample_var (Spec.trailing 10 29 (spread_of hr Samples.quiet_tail)) == 0)%Q.
Proof.
  apply (flat_list_var (inject_Z 11 - hr * inject_Z 105)%Q).
  intros x Hx. unfold Spec.trailing in Hx.
  cbn [seq map nth Nat.sub spread_of Samples.quiet_tail] in Hx.
  repeat (destruct Hx as [<- | Hx]; [reflexivity |]).
  destruct Hx.
Qed.

(** NaN is not confined to the prefix: with a window of ten, cell 29 lies
    past the first nine cells and is NaN all the same. *)
Lemma z_score_nan_past_prefix :
  exists a,
    calculate_analytics Samples.sample_libs Samples.quiet_tail 10 = Returned a /\
    (10 - 1 <= 29)%nat /\
    nth 29 (z_score a) (Fin 0) = NaN.
Proof.
  eexists. split; [reflexivity |]. split; [lia |].
  cbn [z_score].
  rewrite (nth_indep _ _ NaN)
    by (rewrite z_score_of_length, spread_of_length; simpl; lia).
  apply z_score_of_flat;
    [rewrite spread_of_length; simpl; lia | lia | lia |].
  apply sample_std_zero; [rewrite trailing_length; lia |].
  apply quiet_tail_flat.
Qed.

Lemma rolling_z_score_witness :
  exists a,
    calculate_analytics Samples.sample_libs Samples.quiet_tail 10 = Returned a /\
    (2 <= 10)%nat /\
    (5 < List.length Samples.quiet_tail)%nat /\
    nth 5 (z_score a) (Fin 0) = NaN.
Proof.
  eexists. split; [reflexivity |]. split; [lia |]. split; [simpl; lia |].
  refine (proj1 (proj2 (proj2
    (rolling_z_score Samples.sample_libs Samples.quiet_tail 10 _ 5
       eq_refl _ _))) _); simpl; lia.
Defined.

(** No separate condition for a flat window: the quiet tail has no
    variance over the last window, yet the run shows the ordinary dashboard
    and hands a NaN to the alert comparison. *)
Lemma zero_variance_reaches_alert :
  exists a,
    (sample_var (Spec.trailing 10 29 (spread a)) == 0)%Q /\
    run_analytics Samples.sample_libs Samples.quiet_tail 10 2 = Dashboard a NaN false /\
    alert NaN 2 = false.
Proof.
  eexists. split; [| split; [| reflexivity]].
  2: { apply run_analytics_flat_tail;
         [reflexivity | lia | simpl; lia |].
       cbn [spread]. apply quiet_tail_flat. }
  cbn [spread]. apply quiet_tail_flat.
Qed.

Lemma degenerate_inputs_propagate_witness :
  exists a,
    calculate_analytics Samples.sample_libs Samples.quiet_tail 10 = Returned a /\
    (2 <= 10)%nat /\
    (10 <= List.length Samples.quiet_tail)%nat /\
    (sample_var (Spec.trailing 10 29 (spread a)) == 0)%Q /\
    run_analytics Samples.sample_libs Samples.quiet_tail 10 2 = Dashboard a NaN false.
Proof.
  eexists. split; [reflexivity |]. split; [lia |]. split; [simpl; lia |].
  split; [cbn [spread]; apply quiet_tail_flat |].
  refine (proj1 (degenerate_inputs_propagate Samples.sample_libs
                   Samples.quiet_tail 10 2 _ eq_refl _ _) _).
  - lia.
  - simpl; lia.
  - cbn [spread]. apply quiet_tail_flat.
Defined.

Lemma insufficient_data_rejected_witness :
  (List.length (firstn 3 Samples.quiet_tail) < 10)%nat /\
  run_analytics Samples.sample_libs (firstn 3 Samples.quiet_tail) 10 2
  = WaitingForMoreData 10.
Proof.
  assert (List.length (firstn 3 Samples.quiet_tail) < 10)%nat as H
      by (simpl; lia).
  split; [exact H |].
  exact (proj1 (insufficient_data_rejected Samples.sample_libs
                  (firstn 3 Samples.quiet_tail) 10 2 H)).
Defined.

(** No rejection inside the computation: called with the default window of
    fifty on the thirty bars of the sample, [calculate_analytics] returns an
    ordinary snapshot, thirty cells in each column and every one NaN. *)
Lemma short_series_is_computed :
  exists a,
    calculate_analytics Samples.sample_libs Samples.quiet_tail 50 = Returned a /\
    (List.length Samples.quiet_tail < 50)%nat /\
    List.length (z_score a) = 30%nat /\
    List.length (rolling_corr a) = 30%nat /\
    Forall (fun c => c = NaN) (z_score a) /\
    Forall (fun c => c = NaN) (rolling_corr a).
Proof.
  assert (List.length Samples.quiet_tail < 50)%nat as H by (simpl; lia).
  eexists. split; [reflexivity |]. split; [exact H |].
  exact (short_series_cells Samples.sample_libs Samples.quiet_tail 50 _ H eq_refl).
Qed.

Lemma dedup_law_witness :
  (2 <= List.length (prices_at 5 (select_symbol BTC Samples.dup_frame)))%nat /\
  prices_at 5 (dedup (select_symbol BTC Samples.dup_frame))
  = [Qmean [inject_Z 100; inject_Z 102]] /\
  exists b,
    filter (fun b => bar_ts b =? 5) (get_pair_data Samples.dup_frame) = [b] /\
    bar_ts b = 5 /\
    btc_price b = Qmean [inject_Z 100; inject_Z 102].
Proof.
  assert (2 <= List.length (prices_at 5 (select_symbol BTC Samples.dup_frame)))%nat
    as Hdup by (simpl; lia).
  pose proof (dedup_law Samples.dup_frame BTC 5 (or_introl eq_refl) Hdup)
    as [H1 [_ [_ [_ H5]]]].
  split; [exact Hdup |]. split; [exact H1 |].
  apply H5. exists 0. split; [left; reflexivity | lia].
Defined.

Lemma leading_gap_law_witness :
  Spec.first_observation BTC Samples.dup_frame 5 /\
  forall b, In b (get_pair_data Samples.dup_frame) -> 5 <= bar_ts b.
Proof.
  assert (Spec.first_observation BTC Samples.dup_frame 5) as H.
  { split.
    - exists (Samples.mk_row 5 BTC 100). split; [| split; reflexivity].
      right; left; reflexivity.
    - intros r Hr Hs. simpl in Hr.
      destruct Hr as [<- | [<- | [<- | [<- | [<- | []]]]]];
        simpl in *; try discriminate; lia. }
  split; [exact H |].
  intros b Hb.
  apply (leading_gap_law Samples.dup_frame BTC 5 (or_introl eq_refl) H b Hb).
Defined.

(** Spacing is not even: with one-second bins and trades at 0 s and 2 s
    only, the empty bin at 1 s is dropped and the two remaining timestamps
    are two seconds apart. *)
Lemma resample_uneven :
  map bar_ts (resample 1000 (get_pair_data Samples.gap_frame)) = [0; 2000] /\
  ~ Spec.consecutive (fun a b => b - a = 1000)
      (map bar_ts (resample 1000 (get_pair_data Samples.gap_frame))).
Proof.
  assert (map bar_ts (resample 1000 (get_pair_data Samples.gap_frame))
          = [0; 2000]) as E by (vm_compute; reflexivity).
  split; [exact E |].
  rewrite E. simpl. intros [H _]. discriminate H.
Qed.

Lemma resample_spacing_witness :
  0 < 1000 /\
  StronglySorted Z.lt
    (map bar_ts (resample 1000 (get_pair_data Samples.gap_frame))).
Proof.
  split; [lia |].
  exact (proj1 (resample_spacing 1000 (get_pair_data Samples.gap_frame) eq_refl)).
Defined.

End SampleChecks.

(* ================================================================== *)
(** * Further properties of the alignment *)
(* ================================================================== *)

Section AlignmentLaws.

Local Open Scope Z_scope.

Variable L : libs.

(** Forward-fill law: in every row of the pair frame, each symbol's price
    is the deduplicated price at that symbol's latest timestamp at or
    before the row's own. *)
Theorem pair_prices_are_latest (df : frame) (b : bar) :
  In b (get_pair_data df) ->
  Spec.latest_at (dedup (select_symbol BTC df)) (bar_ts b) (Some (btc_price b)) /\
  Spec.latest_at (dedup (select_symbol ETH df)) (bar_ts b) (Some (eth_price b)).
Proof.
  rewrite get_pair_data_selected. cbv zeta.
  destruct (is_empty _ || is_empty _); [intros [] |].
  intro Hb. apply dropna_In in Hb. destruct Hb as [r [Hr [Hts [Eb Ee]]]].
  destruct (filled_rows_latest _ _ r Hr) as [Lb Le].
  rewrite Eb, Hts in Lb. rewrite Ee, Hts in Le. split; assumption.
Qed.

Lemma insert_key_present (k : Z) (l : list Z) :
  StronglySorted Z.lt l -> In k l -> insert_key k l = l.
Proof.
  intros Hs Hin. induction l as [| x l IH]; [destruct Hin |].
  apply StronglySorted_inv in Hs. destruct Hs as [Hs Hall].
  rewrite Forall_forall in Hall. cbn [insert_key].
  destruct Hin as [-> | Hin].
  - rewrite Z.ltb_irrefl, Z.eqb_refl. reflexivity.
  - pose proof (Hall k Hin) as Hlt.
    assert ((k <? x) = false) as -> by (apply Z.ltb_ge; lia).
    assert ((k =? x) = false) as -> by (apply Z.eqb_neq; lia).
    rewrite IH by assumption. reflexivity.
Qed.

Lemma insert_key_front (k : Z) (l : list Z) :
  Forall (Z.lt k) l -> insert_key k l = k :: l.
Proof.
  intro H. destruct l as [| x l]; [reflexivity |].
  apply Forall_inv in H. cbn [insert_key].
  assert ((k <? x) = true) as -> by (apply Z.ltb_lt; exact H). reflexivity.
Qed.

Lemma sorted_keys_fixed (l : list Z) :
  StronglySorted Z.lt l -> sorted_keys l = l.
Proof.
  intro Hs. unfold sorted_keys. induction l as [| x l IH]; [reflexivity |].
  apply StronglySorted_inv in Hs. destruct Hs as [Hs Hall].
  cbn [fold_right]. rewrite IH by exact Hs. apply insert_key_front. exact Hall.
Qed.

Lemma insert_keys_present (l' l : list Z) :
  StronglySorted Z.lt l -> incl l' l -> fold_right insert_key l l' = l.
Proof.
  intros Hs Hincl. induction l' as [| x l' IH]; [reflexivity |].
  cbn [fold_right]. rewrite IH by (intros y Hy; apply Hincl; right; exact Hy).
  apply insert_key_present; [exact Hs | apply Hincl; left; reflexivity].
Qed.

(** The sorted union of an increasing index with itself is that index. *)
Lemma sorted_keys_self (l : list Z) :
  StronglySorted Z.lt l -> sorted_keys (l ++ l) = l.
Proof.
  intro Hs. unfold sorted_keys. rewrite fold_right_app.
  fold (sorted_keys l). rewrite sorted_keys_fixed by exact Hs.
  apply insert_keys_present; [exact Hs | apply incl_refl].
Qed.

Lemma unique_sorted (l : list Z) :
  StronglySorted Z.le l -> is_unique l = true -> StronglySorted Z.lt l.
Proof.
  intros Hs Hu. induction l as [| x l IH]; [constructor |].
  apply StronglySorted_inv in Hs. destruct Hs as [Hs Hall].
  cbn [is_unique] in Hu. apply andb_true_iff in Hu. destruct Hu as [Hx Hu].
  apply negb_true_iff in Hx.
  constructor; [apply IH; assumption |].
  rewrite Forall_forall in *. intros y Hy.
  pose proof (Hall y Hy) as Hle.
  assert (x <> y) as Hne.
  { intro E. subst y.
    assert (existsb (Z.eqb x) l = true) as K
        by (apply existsb_exists; exists x; split; [exact Hy | apply Z.eqb_refl]).
    rewrite K in Hx. discriminate. }
  lia.
Qed.

(** Whichever branch of the [is_unique] test runs, a symbol whose ticks
    are stored in time order leaves it with a strictly increasing index. *)
Lemma dedup_index_sorted (s : series) :
  StronglySorted Z.le (index s) -> StronglySorted Z.lt (index (dedup s)).
Proof.
  intro Hs. unfold dedup. destruct (is_unique (index s)) eqn:U.
  - apply unique_sorted; assumption.
  - rewrite index_groupby_mean. apply sorted_keys_sorted.
Qed.

(** When each symbol's ticks are stored in time order, both deduplicated
    series have strictly increasing indexes; the index of the join is then
    the btc index itself whenever the two indexes are equal (the case in
    which pandas keeps the left index as it stands instead of sorting a
    union); the pair frame's rows are in strictly increasing time order;
    and it has one row for every tick timestamp of either tracked symbol
    from the moment both have been seen, and no other row. *)
Theorem pair_frame_timestamps (df : frame) :
  StronglySorted Z.le (index (select_symbol BTC df)) ->
  StronglySorted Z.le (index (select_symbol ETH df)) ->
  StronglySorted Z.lt (index (dedup (select_symbol BTC df))) /\
  StronglySorted Z.lt (index (dedup (select_symbol ETH df))) /\
  (index (dedup (select_symbol BTC df)) = index (dedup (select_symbol ETH df)) ->
   map pr_ts (concat_columns (dedup (select_symbol BTC df))
                             (dedup (select_symbol ETH df)))
   = index (dedup (select_symbol BTC df))) /\
  StronglySorted Z.lt (map bar_ts (get_pair_data df)) /\
  (forall t,
    In t (map bar_ts (get_pair_data df)) <->
    (In t (index (select_symbol BTC df)) \/ In t (index (select_symbol ETH df))) /\
    (exists tb, In tb (index (select_symbol BTC df)) /\ tb <= t) /\
    (exists te, In te (index (select_symbol ETH df)) /\ te <= t)).
Proof.
  intros Hb He.
  pose proof (dedup_index_sorted _ Hb) as Sb.
  pose proof (dedup_index_sorted _ He) as Se.
  split; [exact Sb |]. split; [exact Se |]. split; [| split].
  - intro E. rewrite concat_columns_ts, <- E. apply sorted_keys_self. exact Sb.
  - apply pair_data_sorted.
  - apply pair_data_ts_iff.
Qed.

Lemma pair_data_empty_iff (df : frame) :
  get_pair_data df = [] <->
  select_symbol BTC df = [] \/ select_symbol ETH df = [].
Proof.
  split.
  - intro E.
    destruct (select_symbol BTC df) as [| [tb qb] sb] eqn:Sb; [left; reflexivity |].
    destruct (select_symbol ETH df) as [| [te qe] se] eqn:Se; [right; reflexivity |].
    exfalso.
    assert (In (Z.max tb te) (map bar_ts (get_pair_data df))) as H.
    { apply pair_data_ts_iff. rewrite Sb, Se. simpl. split; [| split].
      - destruct (Z.max_spec tb te) as [[_ ->] | [_ ->]]; auto.
      - exists tb. split; [auto | lia].
      - exists te. split; [auto | lia]. }
    rewrite E in H. destruct H.
  - intro H. rewrite get_pair_data_selected. cbv zeta.
    destruct H as [-> | ->]; [reflexivity |].
    rewrite orb_comm. reflexivity.
Qed.

(** The pair frame is empty exactly when one of the two tracked symbols
    has no tick; on a non-empty snapshot that is exactly when the run
    stops at the "waiting for both symbols" notice. *)
Theorem waiting_for_both_symbols (db : db_state) (raw : frame)
    (iv : Z) (w : nat) (thr : R) :
  load_data L db = Returned raw ->
  raw <> [] ->
  (get_pair_data raw = [] <->
   select_symbol BTC raw = [] \/ select_symbol ETH raw = []) /\
  (main L db iv w thr = WaitingForBothSymbols <->
   select_symbol BTC raw = [] \/ select_symbol ETH raw = []).
Proof.
  intros Hload Hraw. split; [apply pair_data_empty_iff |].
  rewrite <- pair_data_empty_iff.
  unfold main. rewrite Hload.
  destruct raw as [| r0 raw]; [contradiction |]. cbn [is_empty].
  destruct (get_pair_data (r0 :: raw)) as [| b bs] eqn:E.
  - simpl. tauto.
  - cbn [is_empty]. split; [| discriminate].
    unfold run_analytics.
    destruct (is_empty _ || _); [discriminate |].
    destruct (calculate_analytics _ _ _); discriminate.
Qed.

End AlignmentLaws.

Section DedupLaws.

Local Open Scope Z_scope.

Lemma is_unique_NoDup (l : list Z) : is_unique l = true -> NoDup l.
Proof.
  induction l as [| x l IH]; simpl; intro H; [constructor |].
  apply andb_true_iff in H. destruct H as [Hn Hu].
  constructor; [| apply IH; exact Hu].
  intro Hin. apply negb_true_iff in Hn.
  assert (existsb (Z.eqb x) l = true) as K; [| congruence].
  apply existsb_exists. exists x. split; [exact Hin | apply Z.eqb_refl].
Qed.

Lemma sorted_NoDup (l : list Z) : StronglySorted Z.lt l -> NoDup l.
Proof.
  induction 1 as [| x l Hs IH Hall]; constructor; [| exact IH].
  intro Hin. rewrite Forall_forall in Hall. apply Hall in Hin. lia.
Qed.

Lemma prices_at_absent (t : Z) (s : series) :
  ~ In t (index s) -> prices_at t s = [].
Proof.
  intro H. unfold prices_at.
  induction s as [| [t0 q0] s IH]; [reflexivity |].
  simpl. destruct (t0 =? t) eqn:E.
  - apply Z.eqb_eq in E. subst t0. exfalso. apply H. left. reflexivity.
  - apply IH. intro K. apply H. right. exact K.
Qed.

Lemma prices_at_unique (t : Z) (q : Q) (s : series) :
  is_unique (index s) = true -> In (t, q) s -> prices_at t s = [q].
Proof.
  intro Hu. apply is_unique_NoDup in Hu.
  induction s as [| [t0 q0] s IH]; [intros [] |].
  simpl in Hu. inversion Hu as [| ? ? Hnin Hnd]; subst.
  intros [E | Hin].
  - injection E as -> ->. unfold prices_at. simpl. rewrite Z.eqb_refl.
    simpl. f_equal. apply (prices_at_absent t s Hnin).
  - assert (t0 <> t) as Hne.
    { intro E. subst t0. apply Hnin. apply (in_map fst) in Hin. exact Hin. }
    unfold prices_at. simpl.
    destruct (t0 =? t) eqn:E; [apply Z.eqb_eq in E; contradiction |].
    apply IH; assumption.
Qed.

Lemma Qmean_single (q : Q) : (Qmean [q] == q)%Q.
Proof. unfold Qmean, Qsum, Qlen. simpl. field. Qed.

(** After the duplicate-handling step a symbol's series has each of its
    timestamps exactly once, and the price at a timestamp is the mean of
    all the symbol's ticks there (a lone tick keeps its price). *)
Theorem dedup_keeps_one_mean_per_timestamp (s : series) :
  NoDup (index (dedup s)) /\
  (forall t, In t (index (dedup s)) <-> In t (index s)) /\
  (forall t q, In (t, q) (dedup s) -> (q == Qmean (prices_at t s))%Q).
Proof.
  split; [| split; [apply dedup_index |]].
  - unfold dedup. destruct (is_unique (index s)) eqn:U.
    + apply is_unique_NoDup. exact U.
    + rewrite index_groupby_mean. apply sorted_NoDup, sorted_keys_sorted.
  - intros t q. unfold dedup. destruct (is_unique (index s)) eqn:U; intro H.
    + rewrite (prices_at_unique t q s U H). symmetry. apply Qmean_single.
    + unfold groupby_mean in H. apply in_map_iff in H.
      destruct H as [k [E _]]. injection E as -> <-. reflexivity.
Qed.

End DedupLaws.

(* ================================================================== *)
(** * Further properties of resampling *)
(* ================================================================== *)

Section BucketFacts.

Local Open Scope Z_scope.

Variable iv : Z.
Hypothesis iv_pos : 0 < iv.

Lemma bin_of_bounds (origin t : Z) :
  bin_of iv origin t <= t < bin_of iv origin t + iv.
Proof.
  unfold bin_of.
  pose proof (Z.mod_pos_bound (t - origin) iv iv_pos) as Hr.
  pose proof (Z.div_mod (t - origin) iv ltac:(lia)) as Hq.
  nia.
Qed.

Lemma bin_of_unique (origin t k : Z) :
  origin + k * iv <= t < origin + k * iv + iv ->
  bin_of iv origin t = origin + k * iv.
Proof.
  intro H. unfold bin_of. f_equal. f_equal. symmetry.
  apply (Z.div_unique (t - origin) iv k (t - origin - k * iv)); [left |]; lia.
Qed.

Lemma bin_of_mono (origin t1 t2 : Z) :
  t1 <= t2 -> bin_of iv origin t1 <= bin_of iv origin t2.
Proof.
  intro H. unfold bin_of.
  assert ((t1 - origin) / iv <= (t2 - origin) / iv)
    by (apply Z.div_le_mono; lia).
  nia.
Qed.

Lemma ts_min_le (t0 : Z) (rows : list bar) (r : bar) :
  In r rows -> ts_min t0 rows <= bar_ts r.
Proof.
  induction rows as [| r1 rows IH]; simpl; [tauto |].
  intros [-> | H]; [lia |]. specialize (IH H). lia.
Qed.

Lemma ts_max_ge (t0 : Z) (rows : list bar) (r : bar) :
  In r rows -> bar_ts r <= ts_max t0 rows.
Proof.
  induction rows as [| r1 rows IH]; simpl; [tauto |].
  intros [-> | H]; [lia |]. specialize (IH H). lia.
Qed.

(** The bin of every row is one of the bin edges. *)
Lemma bin_edges_cover (rows : list bar) (r : bar) :
  In r rows ->
  In (bin_of iv (Spec.resample_origin rows) (bar_ts r)) (bin_edges iv rows).
Proof.
  intro Hr. destruct rows as [| r0 rows]; [destruct Hr |].
  unfold bin_edges, Spec.resample_origin.
  set (tmin := ts_min (bar_ts r0) (r0 :: rows)).
  set (tmax := ts_max (bar_ts r0) (r0 :: rows)).
  set (origin := start_day tmin).
  assert (tmin <= bar_ts r) as Hlo by (apply ts_min_le; exact Hr).
  assert (bar_ts r <= tmax) as Hhi by (apply ts_max_ge; exact Hr).
  pose proof (bin_of_mono origin _ _ Hlo) as M1.
  pose proof (bin_of_mono origin _ _ Hhi) as M2.
  unfold bin_of in *.
  set (qmin := (tmin - origin) / iv) in *.
  set (qmax := (tmax - origin) / iv) in *.
  set (q := (bar_ts r - origin) / iv) in *.
  assert (qmin <= q <= qmax) as Hq by nia.
  replace (origin + qmax * iv - (origin + qmin * iv))
    with ((qmax - qmin) * iv) by ring.
  rewrite Z.div_mul by lia.
  apply in_map_iff. exists (Z.to_nat (q - qmin)). split.
  - rewrite Z2Nat.id by lia. ring.
  - apply in_seq. lia.
Qed.

Lemma last_opt_app {A : Type} (l : list A) (x : A) :
  last_opt (l ++ [x]) = Some x.
Proof.
  unfold last_opt. rewrite fold_left_app. reflexivity.
Qed.

Lemma last_opt_Some {A : Type} (l : list A) (x : A) :
  last_opt l = Some x -> exists l', l = l' ++ [x].
Proof.
  destruct l as [| y l] using rev_ind; [discriminate |].
  rewrite last_opt_app. intro E. injection E as ->. eauto.
Qed.

Lemma last_opt_nonempty {A : Type} (l : list A) (x : A) :
  In x l -> exists y, last_opt l = Some y.
Proof.
  destruct l as [| y l] using rev_ind; [intros [] |].
  intros _. rewrite last_opt_app. eauto.
Qed.

(** A bar of the resampled frame is the last row of its bin. *)
Lemma resample_In (rows : list bar) (b : bar) :
  In b (resample iv rows) ->
  exists r before,
    filter (fun r' => bin_of iv (Spec.resample_origin rows) (bar_ts r') =? bar_ts b)
           rows = before ++ [r] /\
    btc_price b = btc_price r /\ eth_price b = eth_price r.
Proof.
  unfold resample. intro Hb. apply dropna_In in Hb.
  destruct Hb as [pr [Hpr [Hts [Eb Ee]]]].
  unfold resample_last in Hpr. destruct rows as [| r0 rows]; [destruct Hpr |].
  apply in_map_iff in Hpr. destruct Hpr as [edge [<- _]].
  cbn [pr_ts pr_btc pr_eth] in *. subst edge.
  fold (Spec.resample_origin (r0 :: rows)) in Eb, Ee.
  destruct (last_opt _) as [r |] eqn:Hlast; [| discriminate].
  simpl in Eb, Ee. injection Eb as Eb. injection Ee as Ee.
  apply last_opt_Some in Hlast. destruct Hlast as [before Hlast].
  exists r, before. auto.
Qed.

(** Every bin that holds a row survives. *)
Lemma resample_covers (rows : list bar) (r : bar) :
  In r rows ->
  In (bin_of iv (Spec.resample_origin rows) (bar_ts r))
     (map bar_ts (resample iv rows)).
Proof.
  intro Hr. pose proof (bin_edges_cover rows r Hr) as Hedge.
  unfold resample, resample_last.
  destruct rows as [| r0 rows]; [destruct Hr |].
  fold (Spec.resample_origin (r0 :: rows)).
  set (origin := Spec.resample_origin (r0 :: rows)) in *.
  set (edge := bin_of iv origin (bar_ts r)) in *.
  set (inside := filter (fun r' => bin_of iv origin (bar_ts r') =? edge) (r0 :: rows)).
  assert (In r inside) as Hin
      by (apply filter_In; split; [exact Hr | apply Z.eqb_refl]).
  destruct (last_opt_nonempty inside r Hin) as [y Hy].
  apply in_map_iff.
  exists {| bar_ts := edge; btc_price := btc_price y; eth_price := eth_price y |}.
  split; [reflexivity |].
  apply (dropna_keeps _
           {| pr_ts := edge; pr_btc := Some (btc_price y);
              pr_eth := Some (eth_price y) |}); try reflexivity.
  apply in_map_iff. exists edge. split; [| exact Hedge].
  fold inside. rewrite Hy. reflexivity.
Qed.

End BucketFacts.

Section ResampleLaws.

Local Open Scope Z_scope.

Lemma filter_sorted {A : Type} (P : Z -> Z -> Prop) (f : A -> Z)
    (p : A -> bool) (l : list A) :
  StronglySorted P (map f l) -> StronglySorted P (map f (filter p l)).
Proof.
  induction l as [| x l IH]; simpl; intro H; [constructor |].
  inversion H as [| ? ? Hs Hall]; subst. specialize (IH Hs).
  destruct (p x); [| exact IH].
  simpl. constructor; [exact IH |].
  rewrite Forall_forall in *. intros t Ht. apply Hall.
  apply in_map_iff in Ht. destruct Ht as [y [<- Hy]].
  apply filter_In in Hy. apply in_map. tauto.
Qed.

Lemma sorted_last_is_max {A : Type} (f : A -> Z) (l : list A) (x : A) :
  StronglySorted Z.lt (map f (l ++ [x])) ->
  forall y, In y (l ++ [x]) -> f y <= f x.
Proof.
  induction l as [| z l IH]; simpl; intros H y Hy.
  - destruct Hy as [<- | []]. lia.
  - inversion H as [| ? ? Hs Hall]; subst.
    destruct Hy as [E | Hy]; [subst z | apply IH; assumption].
    rewrite Forall_forall in Hall.
    assert (f y < f x); [| lia].
    apply Hall. apply in_map. apply in_or_app. right. left. reflexivity.
Qed.

Lemma resample_ts_sorted (iv : Z) (rows : list bar) :
  0 < iv -> StronglySorted Z.lt (map bar_ts (resample iv rows)).
Proof.
  intro Hiv. apply (sorted_weaken (Spec.bins_apart iv)).
  - intros a b. apply bins_apart_lt. exact Hiv.
  - unfold resample. apply dropna_sorted. rewrite resample_last_ts.
    apply bin_edges_sorted.
Qed.

(** In a frame in time order, as the pair frame is, a resampled bar sits
    on the left edge of its bin and carries the prices of the latest row
    that falls in the bin. *)
Theorem resample_bar_is_latest_of_bin (iv : Z) (rows : list bar) (b : bar) :
  0 < iv ->
  StronglySorted Z.lt (map bar_ts rows) ->
  In b (resample iv rows) ->
  exists r,
    In r rows /\
    btc_price b = btc_price r /\ eth_price b = eth_price r /\
    bar_ts b <= bar_ts r < bar_ts b + iv /\
    (forall r', In r' rows ->
       bar_ts b <= bar_ts r' < bar_ts b + iv -> bar_ts r' <= bar_ts r).
Proof.
  intros Hiv Hs Hb.
  destruct (resample_In iv rows b Hb) as [r [before [Hf [Eb Ee]]]].
  set (origin := Spec.resample_origin rows) in *.
  assert (In r (before ++ [r])) as Hr
      by (apply in_or_app; right; left; reflexivity).
  rewrite <- Hf in Hr. apply filter_In in Hr. destruct Hr as [Hr Hbin].
  apply Z.eqb_eq in Hbin.
  exists r. split; [exact Hr |]. split; [exact Eb |]. split; [exact Ee |].
  split; [rewrite <- Hbin; apply bin_of_bounds; exact Hiv |].
  intros r' Hr' Hin.
  assert (bin_of iv origin (bar_ts r') = bar_ts b) as Hbin'.
  { rewrite <- Hbin in Hin |- *. unfold bin_of at 2.
    apply bin_of_unique. unfold bin_of in Hin. exact Hin. }
  assert (In r' (before ++ [r])) as Hlast.
  { rewrite <- Hf. apply filter_In. split; [exact Hr' |].
    apply Z.eqb_eq. exact Hbin'. }
  apply (sorted_last_is_max bar_ts before r); [| exact Hlast].
  rewrite <- Hf. apply filter_sorted. exact Hs.
Qed.

Lemma resample_bar_is_latest_of_bin_witness :
  let rows := get_pair_data Samples.dup_frame in
  let b := {| bar_ts := 0; btc_price := (202 # 2)%Q; eth_price := (11 # 1)%Q |} in
  0 < 1000 /\
  StronglySorted Z.lt (map bar_ts rows) /\
  In b (resample 1000 rows) /\
  exists r, In r rows /\ btc_price b = btc_price r /\ bar_ts r = 7.
Proof.
  assert (In {| bar_ts := 0; btc_price := (202 # 2)%Q; eth_price := (11 # 1)%Q |}
             (resample 1000 (get_pair_data Samples.dup_frame))) as Hin
      by (vm_compute; left; reflexivity).
  split; [lia |]. split; [apply pair_data_sorted |]. split; [exact Hin |].
  destruct (resample_bar_is_latest_of_bin 1000 _ _ eq_refl
              (pair_data_sorted Samples.dup_frame) Hin)
    as [r [Hr [Eb [Ee [Hb Hmax]]]]].
  exists r. split; [exact Hr |]. split; [exact Eb |].
  assert (7 <= bar_ts r) as H7.
  { apply (Hmax {| bar_ts := 7; btc_price := (202 # 2)%Q;
                   eth_price := (11 # 1)%Q |}).
    - vm_compute. right; left; reflexivity.
    - simpl. lia. }
  vm_compute in Hr.
  destruct Hr as [<- | [<- | [<- | []]]]; simpl in *; lia.
Defined.

(** The resampled frame has exactly one bar for every bin that holds a
    row: only empty bins are dropped, so it never has more rows than its
    input and is empty only when its input is. *)
Theorem resample_keeps_every_bin (iv : Z) (rows : list bar) :
  0 < iv ->
  NoDup (map bar_ts (resample iv rows)) /\
  (forall t,
     In t (map bar_ts (resample iv rows)) <->
     exists r, In r rows /\ t = bin_of iv (Spec.resample_origin rows) (bar_ts r)) /\
  (List.length (resample iv rows) <= List.length rows)%nat /\
  (rows <> [] -> resample iv rows <> []).
Proof.
  intro Hiv.
  assert (forall t,
     In t (map bar_ts (resample iv rows)) <->
     exists r, In r rows /\ t = bin_of iv (Spec.resample_origin rows) (bar_ts r))
    as Hiff.
  { intro t. split.
    - intro H. apply in_map_iff in H. destruct H as [b [<- Hb]].
      destruct (resample_In iv rows b Hb) as [r [before [Hf _]]].
      assert (In r (before ++ [r])) as Hr
          by (apply in_or_app; right; left; reflexivity).
      rewrite <- Hf in Hr. apply filter_In in Hr. destruct Hr as [Hr Hbin].
      apply Z.eqb_eq in Hbin. exists r. auto.
    - intros [r [Hr ->]]. apply resample_covers; assumption. }
  assert (NoDup (map bar_ts (resample iv rows))) as Hnd
      by (apply sorted_NoDup, resample_ts_sorted; exact Hiv).
  split; [exact Hnd |]. split; [exact Hiff |]. split.
  - rewrite <- (length_map bar_ts (resample iv rows)).
    rewrite <- (length_map
                  (fun r => bin_of iv (Spec.resample_origin rows) (bar_ts r)) rows).
    apply NoDup_incl_length; [exact Hnd |].
    intros t Ht. apply Hiff in Ht. destruct Ht as [r [Hr ->]].
    apply in_map_iff. exists r. auto.
  - intros Hne E. destruct rows as [| r0 rows]; [contradiction |].
    assert (In (bin_of iv (Spec.resample_origin (r0 :: rows)) (bar_ts r0))
               (map bar_ts (resample iv (r0 :: rows)))) as H
        by (apply resample_covers; [exact Hiv | left; reflexivity]).
    rewrite E in H. destruct H.
Qed.

Lemma resample_keeps_every_bin_witness :
  0 < 1000 /\
  (List.length (resample 1000 (get_pair_data Samples.dup_frame))
   <= List.length (get_pair_data Samples.dup_frame))%nat.
Proof.
  split; [lia |].
  exact (proj1 (proj2 (proj2
    (resample_keeps_every_bin 1000 (get_pair_data Samples.dup_frame) eq_refl)))).
Defined.

End ResampleLaws.

(* ================================================================== *)
(** * Further properties of the analytics *)
(* ================================================================== *)

Section SumFacts.

Local Open Scope Q_scope.

Lemma Qsum_cons (x : Q) (l : list Q) : Qsum (x :: l) = x + Qsum l.
Proof. reflexivity. Qed.

Lemma Qsum_map_ext {A : Type} (f g : A -> Q) (l : list A) :
  (forall x, In x l -> f x == g x) -> Qsum (map f l) == Qsum (map g l).
Proof.
  induction l as [| x l IH]; intro H; [reflexivity |].
  cbn [map]. rewrite !Qsum_cons.
  rewrite (H x (or_introl eq_refl)), IH; [reflexivity |].
  intros y Hy. apply H. right. exact Hy.
Qed.

Lemma Qsum_map_plus {A : Type} (f g : A -> Q) (l : list A) :
  Qsum (map (fun x => f x + g x) l) == Qsum (map f l) + Qsum (map g l).
Proof.
  induction l as [| x l IH]; [reflexivity |].
  cbn [map]. rewrite !Qsum_cons, IH. ring.
Qed.

Lemma Qsum_map_scale {A : Type} (c : Q) (f : A -> Q) (l : list A) :
  Qsum (map (fun x => c * f x) l) == c * Qsum (map f l).
Proof.
  induction l as [| x l IH]; [simpl; ring |].
  cbn [map]. rewrite !Qsum_cons, IH. ring.
Qed.

Lemma Qlen_map {A : Type} (f g : A -> Q) (l : list A) :
  Qlen (map f l) = Qlen (map g l).
Proof. unfold Qlen. rewrite !length_map. reflexivity. Qed.

Lemma combine_map {A : Type} (f g : A -> Q) (l : list A) :
  combine (map f l) (map g l) = map (fun x => (f x, g x)) l.
Proof.
  induction l as [| x l IH]; [reflexivity |]. simpl. rewrite IH. reflexivity.
Qed.

End SumFacts.

Section CorrelationFacts.

Local Open Scope R_scope.

Variable L : libs.

(** The rolling-correlation column has one cell per row of the resampled
    frame, and a cell is NaN until its window is full: the first [w-1]
    cells are NaN (all of them when the frame has fewer rows than the
    window). *)
Theorem rolling_corr_needs_full_window (df : list bar) (w : nat) (a : analytics) :
  calculate_analytics L df w = Returned a ->
  List.length (rolling_corr a) = List.length df /\
  (forall i, (S i < w)%nat -> nth i (rolling_corr a) NaN = NaN) /\
  ((List.length df < w)%nat -> Forall (fun c => c = NaN) (rolling_corr a)).
Proof.
  intro Hc.
  destruct (calculate_analytics_fields L df w a Hc) as [_ [_ [_ Hrc]]].
  assert (List.length (rolling_corr a) = List.length df) as Hlen
      by (rewrite Hrc, rolling_corr_of_length; rewrite !length_map; reflexivity).
  split; [exact Hlen |]. split.
  - intros i Hi. rewrite Hrc. apply rolling_corr_of_prefix. exact Hi.
  - intro Hs. apply all_nan. intros i Hi.
    rewrite Hrc. apply rolling_corr_of_prefix. lia.
Qed.

(** When the dashboard is shown, the frame had at least [rolling_window]
    rows, the current z-score is the last cell of the z-score column and is
    NaN or finite, and a breach is signalled exactly when it is finite with
    [|z|] above the threshold; NaN never raises the alert. *)
Theorem breach_needs_finite_z (df : list bar) (w : nat) (thr : R)
    (a : analytics) (z : fval) (b : bool) :
  run_analytics L df w thr = Dashboard a z b ->
  (w <= List.length df)%nat /\
  calculate_analytics L df w = Returned a /\
  z = last (z_score a) NaN /\
  (z = NaN \/ exists r, z = Fin r) /\
  (b = true <-> exists r, z = Fin r /\ Rabs r > thr).
Proof.
  unfold run_analytics.
  destruct df as [| b0 df]; [discriminate |]. cbn [is_empty orb].
  destruct (List.length (b0 :: df) <? w)%nat eqn:Hw; [discriminate |].
  apply Nat.ltb_ge in Hw.
  destruct (calculate_analytics L (b0 :: df) w) as [a' |] eqn:Hc;
    [| discriminate].
  intro H. injection H as -> <- <-.
  destruct (calculate_analytics_fields L _ w a Hc) as [_ [Hsp [Hz _]]].
  assert (List.length (spread a) = List.length (b0 :: df)) as Hlen
      by (rewrite Hsp; apply spread_of_length).
  assert (last (z_score a) NaN = NaN \/ exists r, last (z_score a) NaN = Fin r)
    as Hcell.
  { rewrite last_as_nth, Hz, z_score_of_length, Hlen.
    apply z_score_of_cell. rewrite Hlen. simpl. lia. }
  split; [exact Hw |]. split; [reflexivity |]. split; [reflexivity |].
  split; [exact Hcell |].
  destruct Hcell as [-> | [r ->]].
  - split; [discriminate |]. intros [r [E _]]. discriminate.
  - rewrite alert_fin. split.
    + intro H. exists r. auto.
    + intros [r' [E H]]. injection E as ->. exact H.
Qed.

End CorrelationFacts.

Section OlsFacts.

Local Open Scope Q_scope.

Lemma sum_sq_dev_map {A : Type} (f : A -> Q) (l : list A) :
  sum_sq_dev (map f l)
  = Qsum (map (fun x => sq (f x - Qmean (map f l))) l).
Proof. unfold sum_sq_dev. rewrite map_map. reflexivity. Qed.

Lemma sum_cross_dev_map {A : Type} (f g : A -> Q) (l : list A) :
  sum_cross_dev (map f l) (map g l)
  = Qsum (map (fun x => (f x - Qmean (map f l)) * (g x - Qmean (map g l))) l).
Proof.
  unfold sum_cross_dev. rewrite combine_map, map_map. reflexivity.
Qed.

Lemma Qmean_spread (c : Q) (df : list bar) :
  Qmean (spread_of c df)
  == Qmean (map eth_price df) - c * Qmean (map btc_price df).
Proof.
  unfold Qmean, spread_of.
  rewrite (Qlen_map (fun r => eth_price r - c * btc_price r) eth_price df).
  rewrite (Qlen_map btc_price eth_price df).
  rewrite (Qsum_map_ext _ (fun r => eth_price r + (- c) * btc_price r))
    by (intros; ring).
  rewrite (Qsum_map_plus eth_price (fun r => - c * btc_price r)).
  rewrite (Qsum_map_scale (- c) btc_price).
  unfold Qdiv. ring.
Qed.

(** The sum of squared deviations of the spread, as a quadratic in the
    hedge ratio. *)
Lemma ssd_spread (c : Q) (df : list bar) :
  sum_sq_dev (spread_of c df)
  == sum_sq_dev (map eth_price df)
     - 2 * c * sum_cross_dev (map btc_price df) (map eth_price df)
     + c * c * sum_sq_dev (map btc_price df).
Proof.
  pose proof (Qmean_spread c df) as Hm. unfold spread_of in *.
  rewrite !sum_sq_dev_map, sum_cross_dev_map.
  set (mx := Qmean (map btc_price df)) in *.
  set (my := Qmean (map eth_price df)) in *.
  rewrite (Qsum_map_ext _
    (fun r => sq (eth_price r - my)
              + ((- (2 * c)) * ((btc_price r - mx) * (eth_price r - my))
                 + (c * c) * sq (btc_price r - mx)))).
  - rewrite Qsum_map_plus, Qsum_map_plus.
    rewrite (Qsum_map_scale (- (2 * c))), (Qsum_map_scale (c * c)). ring.
  - intros r _. unfold sq. cbv beta. rewrite Hm. ring.
Qed.

Lemma cross_spread (c : Q) (df : list bar) :
  sum_cross_dev (map btc_price df) (spread_of c df)
  == sum_cross_dev (map btc_price df) (map eth_price df)
     - c * sum_sq_dev (map btc_price df).
Proof.
  pose proof (Qmean_spread c df) as Hm. unfold spread_of in *.
  rewrite !sum_cross_dev_map, sum_sq_dev_map.
  set (mx := Qmean (map btc_price df)) in *.
  set (my := Qmean (map eth_price df)) in *.
  rewrite (Qsum_map_ext _
    (fun r => (btc_price r - mx) * (eth_price r - my)
              + (- c) * sq (btc_price r - mx))).
  - rewrite Qsum_map_plus, (Qsum_map_scale (- c)). ring.
  - intros r _. unfold sq. cbv beta. rewrite Hm. ring.
Qed.

Variable L : libs.

Lemma ols_slope_regular (xs ys : list Q) :
  ~ sum_sq_dev xs == 0 ->
  ols_slope L xs ys = sum_cross_dev xs ys / sum_sq_dev xs.
Proof.
  intro H. unfold ols_slope.
  destruct (Qeq_bool (sum_sq_dev xs) (0 # 1)) eqn:E; [| reflexivity].
  apply Qeq_bool_iff in E. contradiction.
Qed.

(** When the btc price moves, the fitted hedge ratio is the least-squares
    one: the spread it gives has no sample covariance with the btc price,
    and no other ratio gives a spread with a smaller sum of squared
    deviations from its mean. *)
Theorem hedge_ratio_is_least_squares (df : list bar) (w : nat) (a : analytics) :
  calculate_analytics L df w = Returned a ->
  ~ sum_sq_dev (map btc_price df) == 0 ->
  sum_cross_dev (map btc_price df) (spread a) == 0 /\
  (forall c, sum_sq_dev (spread a) <= sum_sq_dev (spread_of c df)).
Proof.
  intros Hc Hx.
  destruct (calculate_analytics_fields L df w a Hc) as [Hhr [Hsp _]].
  rewrite Hsp, Hhr, (ols_slope_regular _ _ Hx).
  set (sxx := sum_sq_dev (map btc_price df)) in *.
  set (sxy := sum_cross_dev (map btc_price df) (map eth_price df)).
  set (syy := sum_sq_dev (map eth_price df)).
  set (beta := sxy / sxx).
  assert (sxy == beta * sxx) as Hxy by (unfold beta; field; exact Hx).
  split.
  - rewrite cross_spread. fold sxx sxy. rewrite Hxy. ring.
  - intro c. rewrite !ssd_spread. fold sxx sxy syy. rewrite Hxy.
    assert (0 <= sxx * ((c - beta) * (c - beta))) as K.
    { apply Qmult_le_0_compat; [apply sum_sq_dev_nonneg |].
      apply (sq_nonneg (c - beta)). }
    lra.
Qed.

End OlsFacts.

(* ================================================================== *)
(** * Further properties of the ingestor *)
(* ================================================================== *)

Section ConnectorFacts.

Variable h : Ingest.host.







(** Inside the receive loop no message, however malformed, and no failed
    write ends the connection or makes the connector sleep: after any run
    of received messages the connector is still streaming. *)
Theorem messages_never_drop_the_connection (symbol : string)
    (evs : list Ingest.event) (c : Ingest.connector) (table : list Ingest.tick) :
  Ingest.conn_phase c = Ingest.Streaming ->
  Forall (fun ev => exists data stored, ev = Ingest.Received data stored) evs ->
  fst (Ingest.subscribe_to_trades h symbol evs (c, table)) = c.
Proof.
  intros Hc Hall. revert table.
  unfold Ingest.subscribe_to_trades.
  induction Hall as [| ev evs [data [stored ->]] _ IH]; intro table;
    [reflexivity |].
  cbn [fold_left]. unfold Ingest.subscribe_step at 2. rewrite Hc.
  destruct data as [data |]; destruct stored; apply IH.
Qed.

End ConnectorFacts.

Lemma messages_never_drop_the_connection_witness :
  let c := {| Ingest.conn_phase := Ingest.Streaming; Ingest.sleeps := 0 |} in
  let evs := [Ingest.Received None true;
              Ingest.Received (Some Samples.sample_msg) false] in
  Ingest.conn_phase c = Ingest.Streaming /\
  fst (Ingest.subscribe_to_trades Ingest.utc_host App.BTC evs (c, [])) = c.
Proof.
  split; [reflexivity |].
  apply messages_never_drop_the_connection; [reflexivity |].
  repeat constructor; eauto.
Defined.


Section TaskFacts.

Variable h : Ingest.host.









End TaskFacts.

Section StoreFacts.

Variable L : libs.

(** Creating the table is safe to repeat and invisible to the dashboard:
    when [create_database_table] returns, the [ticks] table exists with
    the rows it had (none if it was new), a second call changes nothing,
    and [load_data] returns what it returned before. *)
Theorem create_table_keeps_the_rows (d d' : Store.disk) :
  Store.create_database_table d = Returned d' ->
  (exists rows, d' = Store.Database (Some rows)) /\
  (forall rows, d = Store.Database (Some rows) -> d' = d) /\
  Store.create_database_table d' = Returned d' /\
  load_data L (Store.view d') = load_data L (Store.view d).
Proof.
  destruct d as [| | [rows |]]; simpl; intro H;
    try discriminate; injection H as <-; simpl.
  - split; [eauto |]. split; [discriminate |]. auto.
  - split; [eauto |]. split; [auto |]. auto.
  - split; [eauto |]. split; [discriminate |]. auto.
Qed.

Lemma load_data_parse (rows : list Ingest.tick) :
  load_data L (Ticks rows) = parse_rows L rows.
Proof. destruct rows; reflexivity. Qed.

Lemma parse_rows_raised (rows : list Ingest.tick) :
  parse_rows L rows = Raised <->
  exists t, In t rows /\ to_datetime L (Ingest.tick_ts t) = None.
Proof.
  induction rows as [| t rows IH]; simpl.
  - split; [discriminate | intros [t [[] _]]].
  - destruct (to_datetime L (Ingest.tick_ts t)) as [w |] eqn:E.
    + destruct (parse_rows L rows) as [f |].
      * split; [discriminate |].
        intros [t' [[<- | Hin] Hn]]; [congruence |].
        assert (@Returned frame f = Raised) as K; [| discriminate K].
        apply IH. eauto.
      * split; [| reflexivity]. intros _.
        destruct (proj1 IH eq_refl) as [t' [Hin Hn]]. eauto.
    + split; [| reflexivity]. intros _. exists t. auto.
Qed.

Lemma parse_rows_returned (rows : list Ingest.tick) (f : frame) :
  parse_rows L rows = Returned f ->
  Forall2 (fun t r => to_datetime L (Ingest.tick_ts t) = Some (ts r) /\
                      symbol r = Ingest.tick_symbol t /\
                      price r = Ingest.tick_price t) rows f.
Proof.
  revert f. induction rows as [| t rows IH]; simpl; intros f H.
  - injection H as <-. constructor.
  - destruct (to_datetime L (Ingest.tick_ts t)) as [w |] eqn:E;
      [| discriminate].
    destruct (parse_rows L rows) as [f' |]; [| discriminate].
    injection H as <-. constructor; [simpl; auto | apply IH; reflexivity].
Qed.

(** [load_data] on a table with rows is all or nothing: it raises exactly
    when some stored timestamp text does not parse, and otherwise returns
    one frame row per table row, in table order, with the parsed
    timestamp and the stored symbol and price. *)
Theorem load_data_reads_every_row_or_raises (rows : list Ingest.tick) :
  (load_data L (Ticks rows) = Raised <->
   exists t, In t rows /\ to_datetime L (Ingest.tick_ts t) = None) /\
  (forall f, load_data L (Ticks rows) = Returned f ->
     Forall2 (fun t r => to_datetime L (Ingest.tick_ts t) = Some (ts r) /\
                         symbol r = Ingest.tick_symbol t /\
                         price r = Ingest.tick_price t) rows f).
Proof.
  rewrite load_data_parse. split;
    [apply parse_rows_raised | apply parse_rows_returned].
Qed.

End StoreFacts.

Lemma create_table_keeps_the_rows_witness :
  Store.create_database_table Store.Absent
  = Returned (Store.Database (Some [])) /\
  load_data Samples.sample_libs (Store.view (Store.Database (Some [])))
  = load_data Samples.sample_libs (Store.view Store.Absent).
Proof.
  split; [reflexivity |].
  exact (proj2 (proj2 (proj2
    (create_table_keeps_the_rows Samples.sample_libs Store.Absent _ eq_refl)))).
Defined.

Section MessageFacts.

Local Open Scope Z_scope.

Variable h : Ingest.host.

Lemma normalize_Some (symbol : string) (data : Ingest.trade_msg) (t : Ingest.tick) :
  Ingest.normalize_trade_data h symbol data = Some t ->
  exists T dt,
    Ingest.msg_T data = Some T /\
    Ingest.fromtimestamp h T = Some dt /\
    dt = Ingest.datetime_of_wall_ms (T + Ingest.utcoffset_ms h T) /\
    Ingest.tick_ts t = Ingest.isoformat dt /\
    Ingest.tick_symbol t = symbol /\
    Ingest.msg_p data = Some (Ingest.tick_price t) /\
    Ingest.msg_q data = Some (Ingest.tick_size t).
Proof.
  unfold Ingest.normalize_trade_data.
  destruct (Ingest.msg_T data) as [T |]; [| discriminate].
  destruct (Ingest.fromtimestamp h T) as [dt |] eqn:F; [| discriminate].
  destruct (Ingest.msg_p data) as [p |]; [| discriminate].
  destruct (Ingest.msg_q data) as [q |]; [| discriminate].
  intro H. injection H as <-. exists T, dt. simpl.
  repeat split; try reflexivity.
  - exact F.
  - unfold Ingest.fromtimestamp in F.
    destruct (_ || _) in F; [discriminate |]. injection F as <-. reflexivity.
Qed.



Lemma civil_from_days_ranges (days : Z) :
  1 <= snd (fst (Ingest.civil_from_days days)) <= 12 /\
  1 <= snd (Ingest.civil_from_days days) <= 31.
Proof.
  unfold Ingest.civil_from_days.
  set (z := days + 719468).
  set (era := z / 146097).
  set (doe := z - era * 146097).
  assert (0 <= doe <= 146096) as Hdoe.
  { unfold doe, era. pose proof (Z.mod_pos_bound z 146097 ltac:(lia)).
    pose proof (Z.div_mod z 146097 ltac:(lia)). lia. }
  clearbody doe.
  set (yoe := (doe - doe / 1460 + doe / 36524 - doe / 146096) / 365).
  set (doy := doe - (365 * yoe + yoe / 4 - yoe / 100)).
  assert (0 <= doy <= 365) as Hdoy
      by (clear - Hdoe; unfold doy, yoe; Z.div_mod_to_equations; lia).
  clearbody doy.
  set (mp := (5 * doy + 2) / 153).
  assert (0 <= mp <= 11) as Hmp
      by (clear - Hdoy; unfold mp; Z.div_mod_to_equations; lia).
  assert (1 <= doy - (153 * mp + 2) / 5 + 1 <= 31) as Hd
      by (clear - Hdoy; unfold mp; Z.div_mod_to_equations; lia).
  clearbody mp. cbn [fst snd].
  destruct (mp <? 10) eqn:E; [apply Z.ltb_lt in E | apply Z.ltb_ge in E];
    split; lia.
Qed.

Lemma string_length_app (a b : string) :
  String.length (a ++ b) = (String.length a + String.length b)%nat.
Proof.
  induction a as [| c a IH]; [reflexivity |]. simpl. rewrite IH. reflexivity.
Qed.

Lemma zero_padded_length (width : nat) :
  forall (n : Z) (acc : string),
  String.length (Ingest.zero_padded width n acc)
  = (width + String.length acc)%nat.
Proof.
  induction width as [| width IH]; intros n acc; [reflexivity |].
  simpl. rewrite IH. simpl. lia.
Qed.

Lemma fmt_length (width : nat) (n : Z) :
  String.length (Ingest.fmt width n) = width.
Proof.
  unfold Ingest.fmt. rewrite zero_padded_length. simpl. lia.
Qed.

Lemma isoformat_length (dt : Ingest.datetime) :
  String.length (Ingest.isoformat dt)
  = if Ingest.microsecond dt =? 0 then 19%nat else 26%nat.
Proof.
  unfold Ingest.isoformat.
  repeat rewrite string_length_app. repeat rewrite fmt_length.
  destruct (Ingest.microsecond dt =? 0).
  - reflexivity.
  - rewrite string_length_app, fmt_length. reflexivity.
Qed.

(** A normalised tick bears the connector's symbol and the message's price
    and quantity unchanged; its timestamp is the text of valid calendar
    fields with a whole number of milliseconds, 19 characters long when
    the local reading falls on a whole second and 26 otherwise. *)
Theorem normalized_tick_is_well_formed (symbol : string)
    (data : Ingest.trade_msg) (t : Ingest.tick) :
  Ingest.normalize_trade_data h symbol data = Some t ->
  Ingest.tick_symbol t = symbol /\
  Ingest.msg_p data = Some (Ingest.tick_price t) /\
  Ingest.msg_q data = Some (Ingest.tick_size t) /\
  exists T dt,
    Ingest.msg_T data = Some T /\
    Ingest.tick_ts t = Ingest.isoformat dt /\
    Ingest.MINYEAR <= Ingest.year dt <= Ingest.MAXYEAR /\
    1 <= Ingest.month dt <= 12 /\ 1 <= Ingest.day dt <= 31 /\
    0 <= Ingest.hour dt <= 23 /\ 0 <= Ingest.minute dt <= 59 /\
    0 <= Ingest.second dt <= 59 /\
    Ingest.microsecond dt
      = 1000 * ((T + Ingest.utcoffset_ms h T) mod 1000) /\
    String.length (Ingest.tick_ts t)
      = if (T + Ingest.utcoffset_ms h T) mod 1000 =? 0 then 19%nat else 26%nat.
Proof.
  intro N. apply normalize_Some in N.
  destruct N as [T [dt [HT [HF [Hdt [Hts [Hs [Hp Hq]]]]]]]].
  split; [exact Hs |]. split; [exact Hp |]. split; [exact Hq |].
  exists T, dt. split; [exact HT |]. split; [exact Hts |].
  assert (Ingest.MINYEAR <= Ingest.year dt <= Ingest.MAXYEAR) as Hy.
  { unfold Ingest.fromtimestamp in HF. rewrite <- Hdt in HF.
    destruct (Ingest.year dt <? Ingest.MINYEAR) eqn:E1; [discriminate |].
    destruct (Ingest.MAXYEAR <? Ingest.year dt) eqn:E2; [discriminate |].
    apply Z.ltb_ge in E1. apply Z.ltb_ge in E2. lia. }
  split; [exact Hy |].
  set (w := T + Ingest.utcoffset_ms h T) in *.
  pose proof (civil_from_days_ranges (w / Ingest.ms_per_day)) as [Hm Hd].
  assert (0 <= w mod Ingest.ms_per_day < 86400000) as Hr
      by (apply Z.mod_pos_bound; reflexivity).
  assert ((w mod Ingest.ms_per_day) mod 1000 = w mod 1000) as Hms.
  { clear. unfold Ingest.ms_per_day. Z.div_mod_to_equations. lia. }
  assert (Ingest.microsecond dt = 1000 * (w mod 1000)) as Hus.
  { rewrite Hdt. unfold Ingest.datetime_of_wall_ms.
    destruct (Ingest.civil_from_days _) as [[y m] d]. cbn [Ingest.microsecond].
    rewrite Hms. ring. }
  rewrite Hts, isoformat_length, Hus.
  rewrite Hdt. unfold Ingest.datetime_of_wall_ms.
  destruct (Ingest.civil_from_days (w / Ingest.ms_per_day)) as [[y m] d].
  cbn [fst snd] in Hm, Hd.
  cbn [Ingest.month Ingest.day Ingest.hour Ingest.minute Ingest.second
       Ingest.microsecond].
  set (r := w mod Ingest.ms_per_day) in *.
  repeat split; try lia;
    try (apply Z.div_pos; lia);
    try (apply Z.mod_pos_bound; lia);
    try (pose proof (Z.mod_pos_bound (r / 60000) 60 ltac:(lia)); lia);
    try (pose proof (Z.mod_pos_bound (r / 1000) 60 ltac:(lia)); lia).
  - assert (r / 3600000 < 24) by (apply Z.div_lt_upper_bound; lia). lia.
  - destruct (w mod 1000 =? 0) eqn:E.
    + apply Z.eqb_eq in E. rewrite E. reflexivity.
    + apply Z.eqb_neq in E.
      assert ((1000 * (w mod 1000) =? 0) = false) as ->
          by (apply Z.eqb_neq; lia).
      reflexivity.
Qed.

End MessageFacts.

Section EndToEndFacts.

Local Open Scope Z_scope.

Variable h : Ingest.host.
Variable L : libs.





End EndToEndFacts.

(** ** The further statements on the sample inputs *)

Section FurtherSampleChecks.

Local Open Scope Z_scope.

Lemma pair_prices_are_latest_witness :
  let b := {| bar_ts := 7; btc_price := (202 # 2)%Q; eth_price := (11 # 1)%Q |} in
  In b (get_pair_data Samples.dup_frame) /\
  Spec.latest_at (dedup (select_symbol BTC Samples.dup_frame)) 7
                 (Some (202 # 2)%Q).
Proof.
  assert (In {| bar_ts := 7; btc_price := (202 # 2)%Q; eth_price := (11 # 1)%Q |}
             (get_pair_data Samples.dup_frame)) as Hin
      by (vm_compute; right; left; reflexivity).
  split; [exact Hin |].
  exact (proj1 (pair_prices_are_latest Samples.dup_frame _ Hin)).
Defined.

Lemma waiting_for_both_symbols_witness :
  exists raw,
    load_data Samples.reading_libs (Ticks Samples.btc_only_table) = Returned raw /\
    raw <> [] /\
    main Samples.reading_libs (Ticks Samples.btc_only_table) 1000 10 2
    = WaitingForBothSymbols.
Proof.
  eexists. split; [vm_compute; reflexivity |].
  split; [discriminate |].
  refine (proj2 (proj2 (waiting_for_both_symbols Samples.reading_libs
                          (Ticks Samples.btc_only_table) _ 1000 10 2 _ _)) _).
  - vm_compute. reflexivity.
  - discriminate.
  - right. reflexivity.
Defined.

Lemma rolling_corr_needs_full_window_witness :
  exists a,
    calculate_analytics Samples.sample_libs Samples.quiet_tail 10 = Returned a /\
    List.length (rolling_corr a) = List.length Samples.quiet_tail /\
    nth 8 (rolling_corr a) NaN = NaN.
Proof.
  eexists. split; [reflexivity |].
  pose proof (rolling_corr_needs_full_window Samples.sample_libs
                Samples.quiet_tail 10 _ eq_refl) as [H1 [H2 _]].
  split; [exact H1 | apply H2; lia].
Defined.

Lemma pair_frame_timestamps_witness :
  StronglySorted Z.le (index (select_symbol BTC Samples.dup_frame)) /\
  StronglySorted Z.le (index (select_symbol ETH Samples.dup_frame)) /\
  StronglySorted Z.lt (map bar_ts (get_pair_data Samples.dup_frame)).
Proof.
  assert (StronglySorted Z.le (index (select_symbol BTC Samples.dup_frame)))
    as Hb by (simpl; repeat constructor; lia).
  assert (StronglySorted Z.le (index (select_symbol ETH Samples.dup_frame)))
    as He by (simpl; repeat constructor; lia).
  split; [exact Hb |]. split; [exact He |].
  exact (proj1 (proj2 (proj2 (proj2
           (pair_frame_timestamps Samples.dup_frame Hb He))))).
Defined.

Lemma breach_needs_finite_z_witness :
  exists a,
    run_analytics Samples.sample_libs Samples.quiet_tail 10 2
    = Dashboard a NaN false /\
    (10 <= List.length Samples.quiet_tail)%nat.
Proof.
  eexists. split.
  - apply run_analytics_flat_tail; [reflexivity | lia | simpl; lia |].
    cbn [spread]. apply quiet_tail_flat.
  - refine (proj1 (breach_needs_finite_z Samples.sample_libs
                     Samples.quiet_tail 10 2 _ NaN false _)).
    apply run_analytics_flat_tail; [reflexivity | lia | simpl; lia |].
    cbn [spread]. apply quiet_tail_flat.
Defined.

Lemma line_bars_move : ~ (sum_sq_dev (map btc_price Samples.line_bars) == 0)%Q.
Proof. intro H. vm_compute in H. discriminate H. Qed.

Lemma hedge_ratio_is_least_squares_witness :
  exists a,
    calculate_analytics Samples.sample_libs Samples.line_bars 2 = Returned a /\
    ~ (sum_sq_dev (map btc_price Samples.line_bars) == 0)%Q /\
    (sum_cross_dev (map btc_price Samples.line_bars) (spread a) == 0)%Q.
Proof.
  eexists. split; [reflexivity |]. split; [exact line_bars_move |].
  exact (proj1 (hedge_ratio_is_least_squares Samples.sample_libs
                  Samples.line_bars 2 _ eq_refl line_bars_move)).
Defined.


Lemma normalized_tick_is_well_formed_witness :
  exists t,
    Ingest.normalize_trade_data Ingest.utc_host BTC Samples.sample_msg = Some t /\
    Ingest.tick_symbol t = BTC.
Proof.
  eexists. split; [vm_compute; reflexivity |].
  refine (proj1 (normalized_tick_is_well_formed Ingest.utc_host BTC
                   Samples.sample_msg _ _)).
  vm_compute. reflexivity.
Defined.


End FurtherSampleChecks.

(* ================================================================== *)
(** * Timestamp texts *)
(* ================================================================== *)

Section TimestampFacts.

Local Open Scope Z_scope.

(** The calendar conversion loses nothing: the date of a day number
    determines the day number. *)
Lemma days_from_civil_from_days (days : Z) :
  Spec.days_from_civil (fst (fst (Ingest.civil_from_days days)))
                       (snd (fst (Ingest.civil_from_days days)))
                       (snd (Ingest.civil_from_days days)) = days.
Proof.
  unfold Ingest.civil_from_days, Spec.days_from_civil. cbn [fst snd].
  set (z := days + 719468).
  set (era := z / 146097).
  set (doe := z - era * 146097).
  assert (0 <= doe <= 146096) as Hdoe.
  { unfold doe, era. pose proof (Z.mod_pos_bound z 146097 ltac:(lia)).
    pose proof (Z.div_mod z 146097 ltac:(lia)). lia. }
  assert (z = era * 146097 + doe) as Hz by (unfold doe; lia).
  clearbody doe era.
  set (yoe := (doe - doe / 1460 + doe / 36524 - doe / 146096) / 365).
  assert (0 <= yoe <= 399) as Hyoe
      by (clear - Hdoe; unfold yoe; Z.div_mod_to_equations; lia).
  set (doy := doe - (365 * yoe + yoe / 4 - yoe / 100)).
  assert (0 <= doy <= 365) as Hdoy
      by (clear - Hdoe; unfold doy, yoe; Z.div_mod_to_equations; lia).
  assert (doe = yoe * 365 + yoe / 4 - yoe / 100 + doy) as Hdoe'
      by (unfold doy; lia).
  clearbody doy. clearbody yoe.
  set (mp := (5 * doy + 2) / 153).
  assert (0 <= mp <= 11) as Hmp
      by (clear - Hdoy; unfold mp; Z.div_mod_to_equations; lia).
  assert ((153 * mp + 2) / 5 + (doy - (153 * mp + 2) / 5 + 1) - 1 = doy)
    as Hd by lia.
  clearbody mp.
  assert (forall e y0, 0 <= y0 <= 399 -> (e * 400 + y0) / 400 = e) as Hera
      by (intros e y0 Hy0; Z.div_mod_to_equations; lia).
  destruct (mp <? 10) eqn:E; [apply Z.ltb_lt in E | apply Z.ltb_ge in E].
  - assert ((mp + 3 <=? 2) = false) as -> by (apply Z.leb_gt; lia).
    replace (mp + 3 - 3) with mp by lia.
    replace (yoe + era * 400 + 0) with (era * 400 + yoe) by lia.
    rewrite (Hera era yoe Hyoe).
    replace (era * 400 + yoe - era * 400) with yoe by lia. lia.
  - assert ((mp - 9 <=? 2) = true) as -> by (apply Z.leb_le; lia).
    replace (mp - 9 + 9) with mp by lia.
    replace (yoe + era * 400 + 1 - 1) with (era * 400 + yoe) by lia.
    rewrite (Hera era yoe Hyoe).
    replace (era * 400 + yoe - era * 400) with yoe by lia. lia.
Qed.

(** The fields of a wall-clock reading determine it. *)
Lemma wall_ms_of_datetime_of_wall_ms (w : Z) :
  Spec.wall_ms_of_datetime (Ingest.datetime_of_wall_ms w) = w.
Proof.
  unfold Spec.wall_ms_of_datetime, Ingest.datetime_of_wall_ms.
  pose proof (days_from_civil_from_days (w / Ingest.ms_per_day)) as Hd.
  destruct (Ingest.civil_from_days (w / Ingest.ms_per_day)) as [[y m] d].
  cbn [fst snd] in Hd.
  cbn [Ingest.year Ingest.month Ingest.day Ingest.hour Ingest.minute
       Ingest.second Ingest.microsecond].
  rewrite Hd. unfold Ingest.ms_per_day. clear.
  Z.div_mod_to_equations. lia.
Qed.

Lemma append_inj (a a' b b' : string) :
  String.length a = String.length a' ->
  (a ++ b)%string = (a' ++ b')%string -> a = a' /\ b = b'.
Proof.
  revert a'. induction a as [| c a IH]; intros [| c' a'] Hl E;
    try discriminate Hl.
  - auto.
  - simpl in Hl, E. injection Hl as Hl. injection E as -> E.
    destruct (IH a' Hl E) as [-> ->]. auto.
Qed.

Lemma digit_inj (n m : Z) :
  0 <= n <= 9 -> 0 <= m <= 9 -> Ingest.digit n = Ingest.digit m -> n = m.
Proof.
  intros Hn Hm E. unfold Ingest.digit in E.
  apply (f_equal nat_of_ascii) in E.
  rewrite !nat_ascii_embedding in E by lia. lia.
Qed.

Lemma zero_padded_inj (width : nat) :
  forall (n m : Z) (acc acc' : string),
  String.length acc = String.length acc' ->
  Ingest.zero_padded width n acc = Ingest.zero_padded width m acc' ->
  n mod 10 ^ Z.of_nat width = m mod 10 ^ Z.of_nat width /\ acc = acc'.
Proof.
  induction width as [| width IH]; intros n m acc acc' Hl E.
  - simpl in *. rewrite !Z.mod_1_r. auto.
  - cbn [Ingest.zero_padded] in E.
    apply IH in E; [| simpl; rewrite Hl; reflexivity].
    destruct E as [Hq E]. injection E as Hd ->.
    apply digit_inj in Hd;
      try (pose proof (Z.mod_pos_bound n 10 ltac:(lia));
           pose proof (Z.mod_pos_bound m 10 ltac:(lia)); lia).
    split; [| reflexivity].
    rewrite Nat2Z.inj_succ, Z.pow_succ_r by lia.
    assert (0 < 10 ^ Z.of_nat width) as Hp by (apply Z.pow_pos_nonneg; lia).
    rewrite !Z.rem_mul_r by lia. lia.
Qed.

Lemma fmt_inj (width : nat) (n m : Z) :
  0 <= n < 10 ^ Z.of_nat width -> 0 <= m < 10 ^ Z.of_nat width ->
  Ingest.fmt width n = Ingest.fmt width m -> n = m.
Proof.
  intros Hn Hm E. unfold Ingest.fmt in E.
  apply zero_padded_inj in E; [| reflexivity].
  destruct E as [E _]. rewrite !Z.mod_small in E by assumption. exact E.
Qed.

Lemma string_tail_inj (c c' : ascii) (a b : string) :
  (String c EmptyString ++ a)%string = (String c' EmptyString ++ b)%string ->
  a = b.
Proof. simpl. intro E. injection E as _ E. exact E. Qed.

Ltac split_field H E :=
  apply append_inj in H; [| rewrite !fmt_length; reflexivity];
  destruct H as [E H].

(** [isoformat] is one-to-one on datetimes it can print in full. *)
Lemma isoformat_inj (dt1 dt2 : Ingest.datetime) :
  Spec.printable dt1 -> Spec.printable dt2 ->
  Ingest.isoformat dt1 = Ingest.isoformat dt2 -> dt1 = dt2.
Proof.
  intros [Hy1 [Hm1 [Hd1 [Hh1 [Hn1 [Hs1 Hu1]]]]]]
         [Hy2 [Hm2 [Hd2 [Hh2 [Hn2 [Hs2 Hu2]]]]]] H.
  unfold Ingest.isoformat in H.
  split_field H Ey. apply string_tail_inj in H.
  split_field H Em. apply string_tail_inj in H.
  split_field H Ed. apply string_tail_inj in H.
  split_field H Eh. apply string_tail_inj in H.
  split_field H En. apply string_tail_inj in H.
  split_field H Es.
  apply fmt_inj in Ey; [| simpl; lia | simpl; lia].
  apply fmt_inj in Em; [| simpl; lia | simpl; lia].
  apply fmt_inj in Ed; [| simpl; lia | simpl; lia].
  apply fmt_inj in Eh; [| simpl; lia | simpl; lia].
  apply fmt_inj in En; [| simpl; lia | simpl; lia].
  apply fmt_inj in Es; [| simpl; lia | simpl; lia].
  assert (Ingest.microsecond dt1 = Ingest.microsecond dt2) as Eu.
  { destruct (Ingest.microsecond dt1 =? 0) eqn:Z1;
      destruct (Ingest.microsecond dt2 =? 0) eqn:Z2.
    - apply Z.eqb_eq in Z1, Z2. lia.
    - simpl in H. discriminate H.
    - simpl in H. discriminate H.
    - apply string_tail_inj in H.
      apply fmt_inj in H; [exact H | simpl; lia | simpl; lia]. }
  destruct dt1, dt2. simpl in *. subst. reflexivity.
Qed.

Lemma datetime_of_wall_ms_printable (w : Z) :
  0 <= Ingest.year (Ingest.datetime_of_wall_ms w) <= 9999 ->
  Spec.printable (Ingest.datetime_of_wall_ms w).
Proof.
  intro Hy. unfold Spec.printable. split; [exact Hy |].
  pose proof (civil_from_days_ranges (w / Ingest.ms_per_day)) as [Hm Hd].
  unfold Ingest.datetime_of_wall_ms.
  destruct (Ingest.civil_from_days (w / Ingest.ms_per_day)) as [[y m] d].
  cbn [fst snd] in Hm, Hd.
  cbn [Ingest.month Ingest.day Ingest.hour Ingest.minute Ingest.second
       Ingest.microsecond].
  unfold Ingest.ms_per_day. clear Hy.
  repeat split; try lia; Z.div_mod_to_equations; lia.
Qed.

(** Two stored timestamp texts are equal exactly when the two trades have
    the same local wall-clock reading, to the millisecond: the text keeps
    the whole reading, and nothing else of the instant or of the host. *)
Theorem stored_texts_agree_iff_same_local_reading
    (h1 h2 : Ingest.host) (s1 s2 : string)
    (d1 d2 : Ingest.trade_msg) (t1 t2 : Ingest.tick) (T1 T2 : Z) :
  Ingest.normalize_trade_data h1 s1 d1 = Some t1 ->
  Ingest.normalize_trade_data h2 s2 d2 = Some t2 ->
  Ingest.msg_T d1 = Some T1 ->
  Ingest.msg_T d2 = Some T2 ->
  (Ingest.tick_ts t1 = Ingest.tick_ts t2 <->
   T1 + Ingest.utcoffset_ms h1 T1 = T2 + Ingest.utcoffset_ms h2 T2).
Proof.
  intros N1 N2 HT1 HT2.
  apply normalize_Some in N1. apply normalize_Some in N2.
  destruct N1 as [T1' [dt1 [HT1' [HF1 [Hdt1 [Hts1 _]]]]]].
  destruct N2 as [T2' [dt2 [HT2' [HF2 [Hdt2 [Hts2 _]]]]]].
  assert (T1' = T1) as -> by congruence.
  assert (T2' = T2) as -> by congruence.
  assert (forall h T dt, Ingest.fromtimestamp h T = Some dt ->
            dt = Ingest.datetime_of_wall_ms (T + Ingest.utcoffset_ms h T) ->
            Spec.printable dt) as Hprint.
  { intros h T dt HF Hdt. rewrite Hdt.
    apply datetime_of_wall_ms_printable. rewrite <- Hdt.
    unfold Ingest.fromtimestamp in HF. rewrite <- Hdt in HF.
    unfold Ingest.MINYEAR, Ingest.MAXYEAR in HF.
    destruct (Ingest.year dt <? 1) eqn:E1; [discriminate |].
    destruct (9999 <? Ingest.year dt) eqn:E2; [discriminate |].
    apply Z.ltb_ge in E1. apply Z.ltb_ge in E2. lia. }
  rewrite Hts1, Hts2. split.
  - intro E. apply isoformat_inj in E; eauto.
    rewrite <- (wall_ms_of_datetime_of_wall_ms (T1 + Ingest.utcoffset_ms h1 T1)).
    rewrite <- (wall_ms_of_datetime_of_wall_ms (T2 + Ingest.utcoffset_ms h2 T2)).
    congruence.
  - intro E. rewrite Hdt1, Hdt2, E. reflexivity.
Qed.

End TimestampFacts.

Lemma stored_texts_agree_iff_same_local_reading_witness :
  exists t1 t2,
    Ingest.normalize_trade_data Ingest.utc_host App.BTC Samples.sample_msg
    = Some t1 /\
    Ingest.normalize_trade_data (Ingest.fixed_offset_host 330) App.BTC
      Samples.sample_msg = Some t2 /\
    Ingest.tick_ts t1 <> Ingest.tick_ts t2.
Proof.
  eexists. eexists. split; [vm_compute; reflexivity |].
  split; [vm_compute; reflexivity |].
  intro E.
  apply (stored_texts_agree_iff_same_local_reading
           Ingest.utc_host (Ingest.fixed_offset_host 330) App.BTC App.BTC
           Samples.sample_msg Samples.sample_msg _ _
           1700000000123 1700000000123) in E;
    try (vm_compute; reflexivity).
  vm_compute in E. discriminate E.
Defined.
